(** * IO::Console (src/IO/Console.cpp): a shallow embedding and its properties

    The console keeps a scrollback of text lines, a staging buffer of received
    bytes, a history of sent commands and a handful of configuration flags.
    This development embeds the member functions of [Console] as functions on
    an explicit [Console] record and proves what they do.

    Data representation:
    - a [QChar] is a UTF-16 code unit, an integer in [0, 65535], kept as [Z];
    - a [QString] is a list of [QChar];
    - a [QByteArray] is a list of bytes, each an integer in [0, 255], kept as [Z];
    - a [QStringList] is a list of [QString];
    - signals emitted by a member function are returned as a list, in the
      order in which the function emits them. *)

From Stdlib Require Import String Ascii.
From Stdlib Require Import ZArith List Bool Lia.
Import ListNotations.
Open Scope Z_scope.

(** ** Qt value types *)

Definition QChar := Z.
Definition QString := list QChar.
Definition QByteArray := list Z.
Definition QStringList := list QString.

Definition is_byte (x : Z) : Prop := 0 <= x < 256.
Definition is_bytes (b : QByteArray) : Prop := Forall is_byte b.

(** A string literal of the source, as a [QString]. *)
Definition qstr (s : string) : QString :=
  map (fun a => Z.of_nat (nat_of_ascii a)) (list_ascii_of_string s).

(** The same literal as a [QByteArray] (the literal is plain ASCII). *)
Definition qbytes (s : string) : QByteArray := qstr s.

Definition LF : QChar := 10.    (* '\n' *)
Definition CR : QChar := 13.    (* '\r' *)
Definition SPACE : QChar := 32. (* ' '  *)

Definition between (lo hi x : Z) : bool := (lo <=? x) && (x <=? hi).

(** [QString::startsWith] for the pattern [p]. *)
Fixpoint startsWith (p s : QString) : bool :=
  match p, s with
  | [], _ => true
  | _ :: _, [] => false
  | x :: p', y :: s' => (x =? y) && startsWith p' s'
  end.

(** [QString::replace(before, after)]: every occurrence of [before] is
    replaced by [after], scanning from the left; the scan resumes behind a
    replaced occurrence, so occurrences do not overlap and the inserted text
    is not scanned again.  [skip] counts the characters of a matched
    occurrence that are still to be dropped. *)
Fixpoint replace_from (skip : nat) (before after s : QString) : QString :=
  match s with
  | [] => []
  | c :: s' =>
      match skip with
      | S k => replace_from k before after s'
      | O =>
          if startsWith before s
          then after ++ replace_from (length before - 1) before after s'
          else c :: replace_from 0 before after s'
      end
  end.

(** Every call site of the source passes a non-empty [before]. *)
Definition replace (before after s : QString) : QString :=
  match before with
  | [] => s
  | _ :: _ => replace_from 0 before after s
  end.

(** ** Codec: bytes to display text and hex text to bytes *)

(** One lower-case hexadecimal digit, as [QByteArray::toHex] writes it. *)
Definition hexDigit (n : Z) : QChar := if n <? 10 then 48 + n else 87 + n.

(** [QByteArray::toHex] followed by [QString::fromUtf8]: two lower-case hex
    digits per byte (the text is ASCII, so decoding it changes nothing). *)
Definition toHex (data : QByteArray) : QString :=
  flat_map (fun x => [hexDigit (x / 16); hexDigit (x mod 16)]) data.

(** The loop of [hexadecimalStr]: copy [hex] and put a space behind every
    second character.  [i] is the loop index. *)
Fixpoint addSpaces (i : nat) (hex : QString) : QString :=
  match hex with
  | [] => []
  | c :: hex' =>
      if Nat.eqb (Nat.modulo (i + 1) 2) 0
      then c :: SPACE :: addSpaces (S i) hex'
      else c :: addSpaces (S i) hex'
  end.

(** [Console::hexadecimalStr] *)
Definition hexadecimalStr (data : QByteArray) : QString :=
  let hex := toHex data in
  let str := addSpaces 0 hex in
  let str := replace (qstr "0a") (qstr "0a" ++ [CR]) str in
  let str := replace (qstr "0d") (qstr "0d" ++ [LF]) str in
  str.

(** The value of a hexadecimal digit of either case. *)
Definition hexVal (c : QChar) : option Z :=
  if between 48 57 c then Some (c - 48)
  else if between 97 102 c then Some (c - 87)
  else if between 65 70 c then Some (c - 55)
  else None.

(** [QChar::isSpace]. *)
Definition isSpace (c : QChar) : bool :=
  (c =? 32) || between 9 13 c || (c =? 133) || (c =? 160) || (c =? 5760)
  || between 8192 8202 c || (c =? 8232) || (c =? 8233) || (c =? 8239)
  || (c =? 8287) || (c =? 12288).

(** [QString("%1%2").arg(chr1, chr2).toInt(nullptr, 16)]: the two characters
    read as a base-16 integer.  [QString::toInt] is Qt's; it skips white space
    around the number, accepts a sign ('+', '-' or the minus sign U+2212),
    and returns 0 when the text is not a number. *)
Definition toInt16 (chr1 chr2 : QChar) : Z :=
  match hexVal chr1, hexVal chr2 with
  | Some h, Some l => 16 * h + l
  | Some h, None => if isSpace chr2 then h else 0
  | None, Some l =>
      if isSpace chr1 then l
      else if chr1 =? 43 then l
      else if (chr1 =? 45) || (chr1 =? 8722) then - l
      else 0
  | None, None => 0
  end.

(** The loop of [hexToBytes], two characters per round.  [QString::at] has the
    precondition that the index is inside the string; the loop breaks it when
    one character is left over, and that is [None] here: the source defines
    no result for it. *)
Fixpoint hexPairs (withoutSpaces : QString) : option QByteArray :=
  match withoutSpaces with
  | [] => Some []
  | [_] => None
  | chr1 :: chr2 :: rest =>
      let byte := toInt16 chr1 chr2 in
      match hexPairs rest with
      | Some array => Some (byte mod 256 :: array)   (* append(char) *)
      | None => None
      end
  end.

(** [Console::hexToBytes] *)
Definition hexToBytes (data : QString) : option QByteArray :=
  let withoutSpaces := replace (qstr " ") [] data in
  hexPairs withoutSpaces.

(** *** UTF-8 and Latin-1 (Qt's codecs)

    [QString::fromUtf8], [QString::toUtf8] and [QString::fromLatin1] belong
    to Qt (Qt 5); they are written out here.  The conversion is the UTF-8
    transformation of RFC 3629 between bytes and UTF-16 code units: a byte
    that does not start a well-formed sequence decodes to U+FFFD, and a lone
    surrogate encodes to '?'.  The overloads of [fromUtf8] and [fromLatin1]
    that take a [QByteArray] convert the bytes before the first NUL byte
    only, and the UTF-8 decoder skips a byte order mark EF BB BF at the
    start. *)

Definition REPLACEMENT : QChar := 65533. (* U+FFFD *)

Definition cont (x : Z) : bool := between 128 191 x.

Definition lead2 (b0 : Z) : bool := between 194 223 b0.

Definition lead3 (b0 b1 : Z) : bool :=
  ((b0 =? 224) && between 160 191 b1)
  || (between 225 236 b0 && cont b1)
  || ((b0 =? 237) && between 128 159 b1)
  || (between 238 239 b0 && cont b1).

Definition lead4 (b0 b1 : Z) : bool :=
  ((b0 =? 240) && between 144 191 b1)
  || (between 241 243 b0 && cont b1)
  || ((b0 =? 244) && between 128 143 b1).

Definition isHighSurrogate (u : QChar) : bool := between 55296 56319 u.
Definition isLowSurrogate (u : QChar) : bool := between 56320 57343 u.

(** The UTF-8 decoder, on the bytes it is given. *)
Fixpoint utf8Decode (data : QByteArray) : QString :=
  match data with
  | [] => []
  | b0 :: r0 =>
      if between 0 127 b0 then b0 :: utf8Decode r0
      else
        match r0 with
        | [] => [REPLACEMENT]
        | b1 :: r1 =>
            if lead2 b0 && cont b1
            then ((b0 - 192) * 64 + (b1 - 128)) :: utf8Decode r1
            else
              match r1 with
              | [] => REPLACEMENT :: utf8Decode r0
              | b2 :: r2 =>
                  if lead3 b0 b1 && cont b2
                  then ((b0 - 224) * 4096 + (b1 - 128) * 64 + (b2 - 128))
                         :: utf8Decode r2
                  else
                    match r2 with
                    | [] => REPLACEMENT :: utf8Decode r0
                    | b3 :: r3 =>
                        if lead4 b0 b1 && cont b2 && cont b3
                        then
                          let cp := (b0 - 240) * 262144 + (b1 - 128) * 4096
                                    + (b2 - 128) * 64 + (b3 - 128) in
                          (55296 + (cp - 65536) / 1024)
                            :: (56320 + (cp - 65536) mod 1024)
                            :: utf8Decode r3
                        else REPLACEMENT :: utf8Decode r0
                    end
              end
        end
  end.

(** [qstrnlen]: the bytes before the first NUL byte. *)
Fixpoint untilNul (data : QByteArray) : QByteArray :=
  match data with
  | [] => []
  | x :: rest => if x =? 0 then [] else x :: untilNul rest
  end.

(** The bytes start with the byte order mark EF BB BF. *)
Definition hasBom (data : QByteArray) : bool :=
  match data with
  | b0 :: b1 :: b2 :: _ => (b0 =? 239) && (b1 =? 187) && (b2 =? 191)
  | _ => false
  end.

Definition skipBom (data : QByteArray) : QByteArray :=
  if hasBom data then skipn 3 data else data.

(** [QString::fromUtf8(const QByteArray &)] *)
Definition fromUtf8 (data : QByteArray) : QString :=
  utf8Decode (skipBom (untilNul data)).

Fixpoint toUtf8 (str : QString) : QByteArray :=
  match str with
  | [] => []
  | u :: r =>
      if u <? 128 then u :: toUtf8 r
      else if u <? 2048 then (192 + u / 64) :: (128 + u mod 64) :: toUtf8 r
      else if isHighSurrogate u then
        match r with
        | [] => [63]
        | lo :: r' =>
            if isLowSurrogate lo
            then
              let cp := 65536 + (u - 55296) * 1024 + (lo - 56320) in
              (240 + cp / 262144) :: (128 + (cp / 4096) mod 64)
                :: (128 + (cp / 64) mod 64) :: (128 + cp mod 64) :: toUtf8 r'
            else 63 :: toUtf8 r
        end
      else if isLowSurrogate u then 63 :: toUtf8 r
      else (224 + u / 4096) :: (128 + (u / 64) mod 64) :: (128 + u mod 64)
             :: toUtf8 r
  end.

(** [QString::fromLatin1(const QByteArray &)]: one character per byte, of the
    same value, for the bytes before the first NUL byte. *)
Definition fromLatin1 (data : QByteArray) : QString := untilNul data.

(** Well-formed UTF-8 (RFC 3629, section 4): a sequence of
    UTF8-1 / UTF8-2 / UTF8-3 / UTF8-4 groups. *)
Fixpoint validUtf8 (b : QByteArray) : bool :=
  match b with
  | [] => true
  | b0 :: r0 =>
      if between 0 127 b0 then validUtf8 r0
      else
        match r0 with
        | [] => false
        | b1 :: r1 =>
            if lead2 b0 then cont b1 && validUtf8 r1
            else
              match r1 with
              | [] => false
              | b2 :: r2 =>
                  if between 224 239 b0
                  then lead3 b0 b1 && cont b2 && validUtf8 r2
                  else
                    match r2 with
                    | [] => false
                    | b3 :: r3 =>
                        lead4 b0 b1 && cont b2 && cont b3 && validUtf8 r3
                    end
              end
        end
  end.

Definition QByteArray_eq_dec : forall a b : QByteArray, {a = b} + {a <> b} :=
  list_eq_dec Z.eq_dec.

(** [Console::plainTextStr] *)
Definition plainTextStr (data : QByteArray) : QString :=
  let str := fromUtf8 data in
  if QByteArray_eq_dec (toUtf8 str) data then str else fromLatin1 data.

(** ** The console object *)

Inductive DataMode := DataUTF8 | DataHexadecimal.

Inductive LineEnding :=
  NoLineEnding | NewLine | CarriageReturn | BothNewLineAndCarriageReturn.

Inductive DisplayMode := DisplayPlainText | DisplayHexadecimal.

(** The signals of the class; [lineReceived] and [stringReceived] carry text. *)
Inductive Signal :=
| dataReceived
| lineReceived (text : QString)
| stringReceived (text : QString)
| historyItemChanged
| echoChanged
| dataModeChanged
| showTimestampChanged
| autoscrollChanged
| lineEndingChanged
| displayModeChanged.

(** The data members of [Console].  [stamps] is ghost state, not a member of
    the class: it has one entry per line of [m_lines] and records the offsets
    inside that line at which [append] has inserted a timestamp.  No member
    function reads it. *)
Record Console := mkConsole {
  m_dataMode : DataMode;
  m_lineEnding : LineEnding;
  m_displayMode : DisplayMode;
  m_historyItem : Z;
  m_echo : bool;
  m_autoscroll : bool;
  m_showTimestamp : bool;
  m_timestampAdded : bool;
  m_lines : QStringList;
  m_dataBuffer : QByteArray;
  m_historyItems : QStringList;
  stamps : list (list nat)
}.

Definition set_dataMode v c :=
  mkConsole v (m_lineEnding c) (m_displayMode c) (m_historyItem c) (m_echo c)
    (m_autoscroll c) (m_showTimestamp c) (m_timestampAdded c) (m_lines c)
    (m_dataBuffer c) (m_historyItems c) (stamps c).
Definition set_lineEnding v c :=
  mkConsole (m_dataMode c) v (m_displayMode c) (m_historyItem c) (m_echo c)
    (m_autoscroll c) (m_showTimestamp c) (m_timestampAdded c) (m_lines c)
    (m_dataBuffer c) (m_historyItems c) (stamps c).
Definition set_displayMode v c :=
  mkConsole (m_dataMode c) (m_lineEnding c) v (m_historyItem c) (m_echo c)
    (m_autoscroll c) (m_showTimestamp c) (m_timestampAdded c) (m_lines c)
    (m_dataBuffer c) (m_historyItems c) (stamps c).
Definition set_historyItem v c :=
  mkConsole (m_dataMode c) (m_lineEnding c) (m_displayMode c) v (m_echo c)
    (m_autoscroll c) (m_showTimestamp c) (m_timestampAdded c) (m_lines c)
    (m_dataBuffer c) (m_historyItems c) (stamps c).
Definition set_echo v c :=
  mkConsole (m_dataMode c) (m_lineEnding c) (m_displayMode c) (m_historyItem c) v
    (m_autoscroll c) (m_showTimestamp c) (m_timestampAdded c) (m_lines c)
    (m_dataBuffer c) (m_historyItems c) (stamps c).
Definition set_autoscroll v c :=
  mkConsole (m_dataMode c) (m_lineEnding c) (m_displayMode c) (m_historyItem c)
    (m_echo c) v (m_showTimestamp c) (m_timestampAdded c) (m_lines c)
    (m_dataBuffer c) (m_historyItems c) (stamps c).
Definition set_showTimestamp v c :=
  mkConsole (m_dataMode c) (m_lineEnding c) (m_displayMode c) (m_historyItem c)
    (m_echo c) (m_autoscroll c) v (m_timestampAdded c) (m_lines c)
    (m_dataBuffer c) (m_historyItems c) (stamps c).
Definition set_timestampAdded v c :=
  mkConsole (m_dataMode c) (m_lineEnding c) (m_displayMode c) (m_historyItem c)
    (m_echo c) (m_autoscroll c) (m_showTimestamp c) v (m_lines c)
    (m_dataBuffer c) (m_historyItems c) (stamps c).
Definition set_lines v c :=
  mkConsole (m_dataMode c) (m_lineEnding c) (m_displayMode c) (m_historyItem c)
    (m_echo c) (m_autoscroll c) (m_showTimestamp c) (m_timestampAdded c) v
    (m_dataBuffer c) (m_historyItems c) (stamps c).
Definition set_dataBuffer v c :=
  mkConsole (m_dataMode c) (m_lineEnding c) (m_displayMode c) (m_historyItem c)
    (m_echo c) (m_autoscroll c) (m_showTimestamp c) (m_timestampAdded c)
    (m_lines c) v (m_historyItems c) (stamps c).
Definition set_historyItems v c :=
  mkConsole (m_dataMode c) (m_lineEnding c) (m_displayMode c) (m_historyItem c)
    (m_echo c) (m_autoscroll c) (m_showTimestamp c) (m_timestampAdded c)
    (m_lines c) (m_dataBuffer c) v (stamps c).
Definition set_stamps v c :=
  mkConsole (m_dataMode c) (m_lineEnding c) (m_displayMode c) (m_historyItem c)
    (m_echo c) (m_autoscroll c) (m_showTimestamp c) (m_timestampAdded c)
    (m_lines c) (m_dataBuffer c) (m_historyItems c) v.

(** *** List operations of [QList] *)

Definition count {A} (l : list A) : Z := Z.of_nat (length l).

(** [QList::at(i)] on a list of strings. *)
Definition at_ (l : QStringList) (i : Z) : QString := nth (Z.to_nat i) l [].

(** [QList::replace(i, value)]. *)
Fixpoint replaceAt {A} (i : nat) (value : A) (l : list A) : list A :=
  match l, i with
  | [], _ => []
  | _ :: t, O => value :: t
  | x :: t, S j => x :: replaceAt j value t
  end.

(** The integers [lo], [lo + 1], ..., [hi - 1] of a counting loop. *)
Definition range (lo hi : Z) : list Z :=
  map Z.of_nat (seq (Z.to_nat lo) (Z.to_nat (hi - lo))).

(** *** Member functions *)

Definition lineCount (c : Console) : Z := count (m_lines c).

(** [Console::currentHistoryString] *)
Definition currentHistoryString (c : Console) : QString :=
  if (m_historyItem c <? count (m_historyItems c)) && (0 <=? m_historyItem c)
  then at_ (m_historyItems c) (m_historyItem c)
  else [].

(** [Console::clear] *)
Definition clear (c : Console) : Console * list Signal :=
  let c := set_stamps [] (set_lines [] c) in
  let c := set_dataBuffer [] c in
  (c, [dataReceived]).

(** [Console::historyUp] *)
Definition historyUp (c : Console) : Console * list Signal :=
  if 0 <? m_historyItem c
  then (set_historyItem (m_historyItem c - 1) c, [historyItemChanged])
  else (c, []).

(** [Console::historyDown] *)
Definition historyDown (c : Console) : Console * list Signal :=
  if m_historyItem c <? count (m_historyItems c) - 1
  then (set_historyItem (m_historyItem c + 1) c, [historyItemChanged])
  else (c, []).

Definition setEcho (enabled : bool) (c : Console) : Console * list Signal :=
  (set_echo enabled c, [echoChanged]).

Definition setDataMode (mode : DataMode) (c : Console) : Console * list Signal :=
  (set_dataMode mode c, [dataModeChanged]).

Definition setShowTimestamp (enabled : bool) (c : Console) : Console * list Signal :=
  (set_showTimestamp enabled c, [showTimestampChanged]).

Definition setAutoscroll (enabled : bool) (c : Console) : Console * list Signal :=
  (set_autoscroll enabled c, [autoscrollChanged]).

Definition setLineEnding (mode : LineEnding) (c : Console) : Console * list Signal :=
  (set_lineEnding mode c, [lineEndingChanged]).

Definition setDisplayMode (mode : DisplayMode) (c : Console) : Console * list Signal :=
  (set_displayMode mode c, [displayModeChanged]).

(** [m_lines.append] of the empty string, together with the ghost entry of
    the new line. *)
Definition appendEmptyLine (c : Console) : Console :=
  set_stamps (stamps c ++ [[]]) (set_lines (m_lines c ++ [[]]) c).

(** [m_lines.replace(lineCount() - 1, str)] *)
Definition replaceLastLine (str : QString) (c : Console) : Console :=
  set_lines (replaceAt (Z.to_nat (lineCount c - 1)) str (m_lines c)) c.

(** Ghost: note that a timestamp goes into the last line at [offset]. *)
Definition noteStamp (offset : nat) (c : Console) : Console :=
  set_stamps
    (replaceAt (length (stamps c) - 1) (last (stamps c) [] ++ [offset]) (stamps c))
    c.

(** The body of the loop of [append], for the character [ch = data.at(i)]. *)
Definition appendChar (timestamp : QString) (addTimestamp : bool)
    (c : Console) (ch : QChar) : Console :=
  let c :=
    if negb (m_timestampAdded c) then
      let str := last (m_lines c) [] in
      let c := if addTimestamp then noteStamp (length str) c else c in
      let str := str ++ timestamp in
      let c := replaceLastLine str c in
      set_timestampAdded true c
    else c in
  if (ch =? LF) || (ch =? CR) then
    let c := appendEmptyLine c in
    set_timestampAdded false c
  else
    let str := last (m_lines c) [] in
    let str := str ++ [ch] in
    replaceLastLine str c.

(** [Console::append].  [now] is the current time of day as
    [dateTime.toString("HH:mm:ss.zzz -> ")] prints it. *)
Definition append (now : QString) (string : QString) (addTimestamp : bool)
    (c : Console) : Console * list Signal :=
  match string with
  | [] => (c, [])
  | _ :: _ =>
      let timestamp := if addTimestamp then now else [] in
      let data := replace [CR; LF] [LF] string in
      let c := if lineCount c =? 0 then appendEmptyLine c else c in
      let oldLineCount := lineCount c in
      let c := fold_left (appendChar timestamp addTimestamp) data c in
      let newLineCount := lineCount c in
      (c,
       map (fun i => lineReceived (at_ (m_lines c) (i - 1)))
           (range oldLineCount newLineCount)
       ++ (if newLineCount =? oldLineCount then [stringReceived data] else [])
       ++ [dataReceived])
  end.

(** [Console::dataToString] *)
Definition dataToString (c : Console) (data : QByteArray) : QString :=
  match m_displayMode c with
  | DisplayPlainText => plainTextStr data
  | DisplayHexadecimal => hexadecimalStr data
  end.

(** [Console::displayData] *)
Definition displayData (now : QString) (c : Console) : Console * list Signal :=
  let (c, signals) := append now (dataToString c (m_dataBuffer c)) (m_showTimestamp c) c in
  (set_dataBuffer [] c, signals).

(** [Console::onDataReceived] *)
Definition onDataReceived (data : QByteArray) (c : Console) : Console * list Signal :=
  (set_dataBuffer (m_dataBuffer c ++ data) c, []).

(** The loop [while (m_historyItems.count() > 100) m_historyItems.removeFirst()]. *)
Fixpoint removeOld (items : QStringList) : QStringList :=
  match items with
  | [] => []
  | _ :: rest => if 100 <? count items then removeOld rest else items
  end.

(** [Console::addToHistory] *)
Definition addToHistory (command : QString) (c : Console) : Console * list Signal :=
  let c := set_historyItems (removeOld (m_historyItems c)) c in
  let c := set_historyItems (m_historyItems c ++ [command]) c in
  let c := set_historyItem (count (m_historyItems c)) c in
  (c, [historyItemChanged]).

(** The device behind [Manager]: whether it is connected, and how many bytes
    [writeData] reports as written. *)
Record Device := mkDevice {
  connected : bool;
  writeData : QByteArray -> Z
}.

Definition lineEndingBytes (e : LineEnding) : QByteArray :=
  match e with
  | NoLineEnding => []
  | NewLine => [LF]
  | CarriageReturn => [CR]
  | BothNewLineAndCarriageReturn => [CR; LF]
  end.

(** [Console::send].  The result is [None] where [hexToBytes] has none. *)
Definition send (dev : Device) (now : QString) (data : QString) (c : Console)
    : option (Console * list Signal) :=
  match data with
  | [] => Some (c, [])
  | _ :: _ =>
      if negb (connected dev) then Some (c, [])
      else
        let (c, sig1) := addToHistory data c in
        let bin :=
          match m_dataMode c with
          | DataHexadecimal => hexToBytes data
          | DataUTF8 => Some (toUtf8 data)
          end in
        match bin with
        | None => None
        | Some bin =>
            let bin := bin ++ lineEndingBytes (m_lineEnding c) in
            let bytes := writeData dev bin in
            if 0 <? bytes then
              if m_echo c then
                let (c, sig2) := append now (dataToString c bin) (m_showTimestamp c) c in
                Some (set_timestampAdded false c, sig1 ++ sig2)
              else Some (c, sig1)
            else Some (c, sig1)
        end
  end.

(** The constructor: the member initialisers, then [clear()]. *)
Definition Console_new : Console :=
  fst (clear (mkConsole DataUTF8 NoLineEnding DisplayPlainText 0 false true true
                false [] [] [] [])).

(** All lines but the last one are closed; the last one is still open. *)
Definition closedLines (c : Console) : QStringList := removelast (m_lines c).

(** *** Sequences of calls *)

Inductive Call :=
| CallAppend (now string : QString) (addTimestamp : bool)
| CallDisplayData (now : QString)
| CallOnDataReceived (data : QByteArray)
| CallClear
| CallSend (dev : Device) (now data : QString)
| CallHistoryUp
| CallHistoryDown
| CallSetEcho (enabled : bool)
| CallSetDataMode (mode : DataMode)
| CallSetShowTimestamp (enabled : bool)
| CallSetAutoscroll (enabled : bool)
| CallSetLineEnding (mode : LineEnding)
| CallSetDisplayMode (mode : DisplayMode).

Definition call (k : Call) (c : Console) : option (Console * list Signal) :=
  match k with
  | CallAppend now string addTimestamp => Some (append now string addTimestamp c)
  | CallDisplayData now => Some (displayData now c)
  | CallOnDataReceived data => Some (onDataReceived data c)
  | CallClear => Some (clear c)
  | CallSend dev now data => send dev now data c
  | CallHistoryUp => Some (historyUp c)
  | CallHistoryDown => Some (historyDown c)
  | CallSetEcho enabled => Some (setEcho enabled c)
  | CallSetDataMode mode => Some (setDataMode mode c)
  | CallSetShowTimestamp enabled => Some (setShowTimestamp enabled c)
  | CallSetAutoscroll enabled => Some (setAutoscroll enabled c)
  | CallSetLineEnding mode => Some (setLineEnding mode c)
  | CallSetDisplayMode mode => Some (setDisplayMode mode c)
  end.

(** Runs the calls one after the other and collects the signals. *)
Fixpoint calls (ks : list Call) (c : Console) : option (Console * list Signal) :=
  match ks with
  | [] => Some (c, [])
  | k :: ks' =>
      match call k c with
      | None => None
      | Some (c1, sig1) =>
          match calls ks' c1 with
          | None => None
          | Some (c2, sig2) => Some (c2, sig1 ++ sig2)
          end
      end
  end.

(** A timestamp text for the scenarios. *)
Definition T_ : QString := qstr "T -> ".

(** [addToHistory] called for each command of [commands], in order. *)
Definition pushAll (commands : list QString) (c : Console) : Console :=
  fold_left (fun c command => fst (addToHistory command c)) commands c.

(** The last [n] elements of a list. *)
Definition keepLast {A} (n : nat) (l : list A) : list A :=
  skipn (length l - n) l.

(** 150 distinct one-character commands. *)
Definition commands150 : list QString :=
  map (fun n => [Z.of_nat n]) (seq 0 150).

(** ** Notions used in the statements *)

(** The text of the scenario: "hello", a line feed, "world". *)
Definition helloWorld : QString := qstr "hello" ++ [LF] ++ qstr "world".

Definition isBreak (ch : QChar) : bool := (ch =? LF) || (ch =? CR).

(** A line [l] with ghost entry [g] is well stamped when [append] has put no
    timestamp into it, or exactly one, at offset 0, so that the line starts
    with that timestamp.  [T] tells which texts are timestamps. *)
Definition lineOk (T : QString -> Prop) (l : QString) (g : list nat) : Prop :=
  g = [] \/ (g = [0%nat] /\ exists now rest, T now /\ l = now ++ rest).

(** The invariant of the line buffer: every line is well stamped, and the
    timestamp flag is clear only while the last line is still empty and
    unstamped. *)
Definition LineInv (T : QString -> Prop) (c : Console) : Prop :=
  Forall2 (lineOk T) (m_lines c) (stamps c)
  /\ (m_timestampAdded c = false ->
      last (m_lines c) [] = [] /\ last (stamps c) [] = []).

(** Between calls, a set timestamp flag means that the open line has text. *)
Definition OpenInv (c : Console) : Prop :=
  m_timestampAdded c = true -> m_lines c <> [] -> last (m_lines c) [] <> [].

Definition ConsoleInv (T : QString -> Prop) (c : Console) : Prop :=
  LineInv T c /\ OpenInv c.

(** The calls that leave the lines, the ghost entries and the timestamp flag
    alone. *)
Definition sameLines (c c' : Console) : Prop :=
  m_lines c' = m_lines c
  /\ stamps c' = stamps c
  /\ m_timestampAdded c' = m_timestampAdded c.

(** The time of day that a call reads, if it reads it. *)
Definition nowOf (k : Call) : list QString :=
  match k with
  | CallAppend now _ _ => [now]
  | CallDisplayData now => [now]
  | CallSend _ now _ => [now]
  | _ => []
  end.

(** The text that [send] echoes into the console, when it echoes. *)
Definition echoText (dev : Device) (data : QString) (c : Console) : option QString :=
  match data with
  | [] => None
  | _ :: _ =>
      if negb (connected dev) then None
      else
        match (match m_dataMode c with
               | DataHexadecimal => hexToBytes data
               | DataUTF8 => Some (toUtf8 data)
               end) with
        | None => None
        | Some bin =>
            let bin := bin ++ lineEndingBytes (m_lineEnding c) in
            if (0 <? writeData dev bin) && m_echo c
            then Some (dataToString c bin)
            else None
        end
  end.

(** The text is not empty and its last character is a line break. *)
Definition endsLine (text : QString) : bool :=
  match text with
  | [] => false
  | _ :: _ => isBreak (last text 0)
  end.

(** The call [k], made on [c], does not echo text that leaves its line open. *)
Definition closesEcho (k : Call) (c : Console) : bool :=
  match k with
  | CallSend dev now data =>
      match echoText dev data c with
      | Some text => endsLine text
      | None => true
      end
  | _ => true
  end.

(** [closesEcho] for every call of a sequence that starts on [c]. *)
Fixpoint echoesClosed (ks : list Call) (c : Console) : Prop :=
  match ks with
  | [] => True
  | k :: ks' =>
      closesEcho k c = true
      /\ match call k c with
         | Some (c1, _) => echoesClosed ks' c1
         | None => True
         end
  end.

(** A device that is connected and writes everything it is given. *)
Definition loopback : Device := mkDevice true (fun bin => count bin).

(** Echo a command that ends in a line feed, then receive a line. *)
Definition echoLineThenInbound : list Call :=
  [CallSetEcho true; CallSetLineEnding NewLine;
   CallSend loopback T_ (qstr "abc");
   CallAppend T_ (qstr "def" ++ [LF]) true].

(** Echo a command without line ending, then receive a line. *)
Definition echoThenInbound : list Call :=
  [CallSetEcho true;
   CallSend loopback T_ (qstr "abc");
   CallAppend T_ (qstr "def" ++ [LF]) true].

(** Consecutive 2-character groups parsed strictly: [None] when a character
    is left over or a group has a character that is not a hexadecimal digit. *)
Fixpoint parseHexPairs (s : QString) : option QByteArray :=
  match s with
  | [] => Some []
  | [_] => None
  | c1 :: c2 :: rest =>
      match hexVal c1, hexVal c2, parseHexPairs rest with
      | Some h, Some l, Some bytes => Some (16 * h + l :: bytes)
      | _, _, _ => None
      end
  end.

(** [encodeFromHex] as the specification words it: strip all spaces, then
    parse consecutive 2-character hex groups; [None] is [MalformedHexInput]. *)
Definition encodeFromHex_spec (text : QString) : option QByteArray :=
  parseHexPairs (filter (fun ch => negb (ch =? SPACE)) text).

(** The 2-character groups of a string, in order. *)
Fixpoint groupsOf (s : QString) : list (QChar * QChar) :=
  match s with
  | c1 :: c2 :: rest => (c1, c2) :: groupsOf rest
  | _ => []
  end.

(** A character that cannot be part of a number: no hexadecimal digit, no
    white space, no sign ('+', '-', U+2212). *)
Definition notNumeric (ch : QChar) : bool :=
  match hexVal ch with
  | Some _ => false
  | None =>
      negb (isSpace ch) && negb (ch =? 43) && negb (ch =? 45)
      && negb (ch =? 8722)
  end.

(** What [hexToBytes] makes of one group: the value of two hex digits, and 0
    as soon as one character cannot be part of a number. *)
Definition groupByte (group : QChar * QChar) (byte : Z) : Prop :=
  (forall h l, hexVal (fst group) = Some h -> hexVal (snd group) = Some l ->
               byte = 16 * h + l)
  /\ (notNumeric (fst group) || notNumeric (snd group) = true -> byte = 0).

(** How [hexadecimalStr] shows one byte: two hex digits, a carriage return
    behind 0a, a line feed behind 0d, and a space. *)
Definition renderByte (x : Z) : QString :=
  [hexDigit (x / 16); hexDigit (x mod 16)]
  ++ (if x =? 10 then [CR] else if x =? 13 then [LF] else [])
  ++ [SPACE].

(** Removes the spaces and the line breaks of a hex dump. *)
Definition stripDisplay (s : QString) : QString :=
  filter (fun ch => negb (ch =? SPACE) && negb (isBreak ch)) s.

(** ** Notions used in the further properties *)

(** The number of line breaks in a text. *)
Definition nBreaks (data : QString) : nat := length (filter isBreak data).

(** A text without carriage return and line feed. *)
Definition breakFree (text : QString) : Prop :=
  Forall (fun ch => isBreak ch = false) text.

(** The lines of the scrollback as one text, a line feed between two lines. *)
Fixpoint joinLines (lines : QStringList) : QString :=
  match lines with
  | [] => []
  | [l] => l
  | l :: rest => l ++ LF :: joinLines rest
  end.

(** A character as the scrollback keeps it: both line breaks end a line. *)
Definition asLF (ch : QChar) : QChar := if isBreak ch then LF else ch.

(** Two consoles with the same configuration, command history and staging
    buffer; they may differ in the scrollback and the timestamp flag. *)
Definition sameRest (c c' : Console) : Prop :=
  m_dataMode c' = m_dataMode c
  /\ m_lineEnding c' = m_lineEnding c
  /\ m_displayMode c' = m_displayMode c
  /\ m_historyItem c' = m_historyItem c
  /\ m_echo c' = m_echo c
  /\ m_autoscroll c' = m_autoscroll c
  /\ m_showTimestamp c' = m_showTimestamp c
  /\ m_dataBuffer c' = m_dataBuffer c
  /\ m_historyItems c' = m_historyItems c.

(** The recall cursor is inside the history or just behind it, and the
    history has at most 101 entries. *)
Definition HistoryInv (c : Console) : Prop :=
  0 <= m_historyItem c <= count (m_historyItems c)
  /\ count (m_historyItems c) <= 101.

(** [onDataReceived] for each chunk of [chunks], in order. *)
Definition receiveAll (chunks : list QByteArray) : list Call :=
  map CallOnDataReceived chunks.

(** [historyUp] called [n] times. *)
Fixpoint historyUps (n : nat) (c : Console) : Console :=
  match n with
  | O => c
  | S k => fst (historyUp (historyUps k c))
  end.

(** A run of Up (true) and Down (false) key presses. *)
Definition navigate (keys : list bool) (c : Console) : Console :=
  fold_left (fun (c : Console) (up : bool) =>
               if up then fst (historyUp c) else fst (historyDown c))
            keys c.

(** The segments of a text between its line breaks: one more segment than
    there are line breaks. *)
Fixpoint splitBreaks (data : QString) : list QString :=
  match data with
  | [] => [[]]
  | ch :: rest =>
      if isBreak ch then [] :: splitBreaks rest
      else
        match splitBreaks rest with
        | segment :: segments => (ch :: segment) :: segments
        | [] => [[ch]]
        end
  end.

(** Segments as lines that start with the timestamp [now]; the last segment
    is the open line, which is bare as long as it is empty. *)
Fixpoint stampSegments (now : QString) (segments : list QString) : QStringList :=
  match segments with
  | [] => []
  | [segment] => [match segment with [] => [] | _ :: _ => now ++ segment end]
  | segment :: rest => (now ++ segment) :: stampSegments now rest
  end.

(** No byte of the sequence is NUL. *)
Definition noNul (data : QByteArray) : bool :=
  forallb (fun x => negb (x =? 0)) data.

(** Receive "abc" without line break, then send the byte 00 and a line feed
    in hexadecimal data mode with echo on, then receive a line. *)
Definition nulEchoThenInbound : list Call :=
  [CallAppend T_ (qstr "abc") true;
   CallSetEcho true; CallSetDataMode DataHexadecimal; CallSetLineEnding NewLine;
   CallSend loopback T_ (qstr "00");
   CallAppend T_ (qstr "def" ++ [LF]) true].

(** * Properties *)

(** ** Sanity checks of the embedding on concrete inputs *)

Example plainTextStr_ascii : plainTextStr (qbytes "abc") = qstr "abc".
Proof. reflexivity. Qed.

(* U+00E9, U+20AC, U+1F600 *)
Example fromUtf8_ex :
  fromUtf8 [195; 169; 226; 130; 172; 240; 159; 152; 128] = [233; 8364; 55357; 56832].
Proof. reflexivity. Qed.

Example toUtf8_ex :
  toUtf8 [233; 8364; 55357; 56832] = [195; 169; 226; 130; 172; 240; 159; 152; 128].
Proof. reflexivity. Qed.

Example plainTextStr_latin1 : plainTextStr [104; 233] = [104; 233].
Proof. reflexivity. Qed.

Example hexadecimalStr_ex :
  hexadecimalStr [104; 10; 13; 255] = qstr "68 0a" ++ [CR] ++ qstr " 0d" ++ [LF] ++ qstr " ff ".
Proof. reflexivity. Qed.

Example hexToBytes_hello : hexToBytes (qstr "68 65 6c 6c 6f") = Some (qbytes "hello").
Proof. reflexivity. Qed.

(* The decoder skips a byte order mark and stops at a NUL byte. *)
Example fromUtf8_bom_nul :
  fromUtf8 [239; 187; 191; 97; 0; 98] = [97] /\ fromLatin1 [97; 0; 98] = [97].
Proof. split; reflexivity. Qed.

(* U+2212 is a minus sign: the group U+2212 '5' is the byte 0xFB. *)
Example hexToBytes_minus_sign :
  hexToBytes [8722; 53] = Some [251] /\ hexToBytes (qstr "-5") = Some [251].
Proof. split; reflexivity. Qed.

(* A sent NUL byte echoes as the empty text: the echo closes no line, the
   flag is cleared on the open line, and the next text is stamped again. *)
Example echo_of_nul_is_empty :
  ~ echoesClosed nulEchoThenInbound Console_new
  /\ option_map (fun r => m_lines (fst r)) (calls nulEchoThenInbound Console_new)
     = Some [qstr "T -> abcT -> def"; []].
Proof.
  split; [|reflexivity].
  intros H. vm_compute in H. destruct H as (_ & _ & _ & _ & H & _). discriminate H.
Qed.

Example append_hello_world :
  let r := append T_ (qstr "hello" ++ [LF] ++ qstr "world") true Console_new in
  m_lines (fst r) = [qstr "T -> hello"; qstr "T -> world"]
  /\ snd r = [lineReceived (qstr "T -> hello"); dataReceived]
  /\ stamps (fst r) = [[0%nat]; [0%nat]].
Proof. vm_compute. auto. Qed.

(** ** Command history *)

Section History.

Lemma removeOld_keepLast (items : QStringList) :
  removeOld items = keepLast 100 items.
Proof.
  unfold keepLast.
  induction items as [|x items IH]; [reflexivity|].
  cbn [removeOld]. unfold count. cbn [length].
  destruct (100 <? Z.of_nat (S (length items))) eqn:E.
  - apply Z.ltb_lt in E.
    replace (S (length items) - 100)%nat with (S (length items - 100)) by lia.
    exact IH.
  - apply Z.ltb_ge in E.
    replace (S (length items) - 100)%nat with 0%nat by lia.
    reflexivity.
Qed.

Lemma keepLast_snoc {A} (n : nat) (l : list A) (x : A) :
  keepLast n l ++ [x] = keepLast (S n) (l ++ [x]).
Proof.
  unfold keepLast. rewrite length_app. cbn [length].
  replace (length l + 1 - S n)%nat with (length l - n)%nat by lia.
  rewrite skipn_app.
  replace (length l - n - length l)%nat with 0%nat by lia.
  reflexivity.
Qed.

Lemma keepLast_keepLast {A} (n m : nat) (l : list A) :
  (n <= m)%nat -> keepLast n (keepLast m l) = keepLast n l.
Proof.
  intros H. unfold keepLast. rewrite skipn_skipn, length_skipn.
  f_equal. lia.
Qed.

Lemma addToHistory_items (command : QString) (c : Console) :
  m_historyItems (fst (addToHistory command c))
  = keepLast 101 (m_historyItems c ++ [command]).
Proof.
  cbn. rewrite removeOld_keepLast. apply keepLast_snoc.
Qed.

Lemma addToHistory_cursor (command : QString) (c : Console) :
  m_historyItem (fst (addToHistory command c))
  = count (m_historyItems (fst (addToHistory command c))).
Proof. reflexivity. Qed.

Lemma pushAll_snoc (commands : list QString) (x : QString) (c : Console) :
  pushAll (commands ++ [x]) c = fst (addToHistory x (pushAll commands c)).
Proof. unfold pushAll. rewrite fold_left_app. reflexivity. Qed.

Lemma pushAll_items (commands : list QString) (c : Console) :
  commands <> [] ->
  m_historyItems (pushAll commands c)
  = keepLast 101 (m_historyItems c ++ commands).
Proof.
  induction commands as [|x commands IH] using rev_ind; [congruence|].
  intros _. rewrite pushAll_snoc, addToHistory_items.
  destruct commands as [|y commands'].
  - reflexivity.
  - rewrite IH by discriminate.
    rewrite app_assoc.
    rewrite <- !keepLast_snoc. f_equal.
    apply keepLast_keepLast. lia.
Qed.

Lemma pushAll_cursor (commands : list QString) (c : Console) :
  commands <> [] ->
  m_historyItem (pushAll commands c) = count (m_historyItems (pushAll commands c)).
Proof.
  destruct commands as [|x commands] using rev_ind; [congruence|].
  intros _. rewrite pushAll_snoc. apply addToHistory_cursor.
Qed.

End History.

(** C1 (what the code does): for every starting state of the command history,
    150 calls of [addToHistory] leave the last 101 commands, oldest first, and
    the recall cursor at 101: the loop drops old entries only while the list
    has more than 100 of them, and it runs before the new command is added. *)
Theorem C1_history_keeps_101 (c : Console) (commands : list QString) :
  length commands = 150%nat ->
  m_historyItems (pushAll commands c) = skipn 49 commands
  /\ count (m_historyItems (pushAll commands c)) = 101
  /\ m_historyItem (pushAll commands c) = 101.
Proof.
  intros Hlen.
  assert (Hne : commands <> []) by (intros ->; discriminate).
  assert (Hitems : m_historyItems (pushAll commands c) = skipn 49 commands).
  { rewrite pushAll_items by assumption. unfold keepLast.
    rewrite length_app, Hlen, skipn_app.
    replace (length (m_historyItems c) + 150 - 101 - length (m_historyItems c))%nat
      with 49%nat by lia.
    rewrite skipn_all2 by lia. reflexivity. }
  assert (Hcount : count (m_historyItems (pushAll commands c)) = 101).
  { rewrite Hitems. unfold count. rewrite length_skipn, Hlen. reflexivity. }
  rewrite pushAll_cursor by assumption.
  auto.
Qed.

(** 150 distinct commands on a new console. *)
Lemma C1_history_keeps_101_witness :
  length commands150 = 150%nat
  /\ m_historyItems (pushAll commands150 Console_new) = skipn 49 commands150
  /\ count (m_historyItems (pushAll commands150 Console_new)) = 101
  /\ m_historyItem (pushAll commands150 Console_new) = 101.
Proof.
  split; [reflexivity|].
  apply (C1_history_keeps_101 Console_new commands150). reflexivity.
Defined.

(** The history holds 101 entries once 101 commands were sent, and the
    hundredth-from-last command of 150 is not the oldest one kept. *)
Example history_exceeds_100 :
  count (m_historyItems (pushAll (firstn 101 commands150) Console_new)) = 101
  /\ m_historyItems (pushAll commands150 Console_new) <> skipn 50 commands150.
Proof. split; [reflexivity|]. vm_compute. discriminate. Qed.

(** ** The staging buffer *)

(** C10: an idle flush tick is a no-op.  When the staging buffer is empty,
    [displayData] returns the console unchanged (lines, line count, the
    timestamp flag and every configuration member) and emits no signal, in
    either display mode. *)
Theorem C10_idle_displayData_is_noop (now : QString) (c : Console) :
  m_dataBuffer c = [] ->
  displayData now c = (c, []).
Proof.
  intros H. destruct c as [dm le disp hi e a st ta ls buf his g].
  cbn in H. subst buf.
  destruct disp; reflexivity.
Qed.

(** A new console in hexadecimal display mode: nothing is staged. *)
Lemma C10_idle_displayData_is_noop_witness :
  m_dataBuffer (set_displayMode DisplayHexadecimal Console_new) = []
  /\ displayData T_ (set_displayMode DisplayHexadecimal Console_new)
     = (set_displayMode DisplayHexadecimal Console_new, []).
Proof.
  split; [reflexivity|].
  apply (C10_idle_displayData_is_noop T_ (set_displayMode DisplayHexadecimal Console_new)).
  reflexivity.
Defined.

(** C9: the staging buffer batches deliveries.  On a console with no lines,
    an empty staging buffer, plain-text display and timestamps switched off,
    [onDataReceived("ab")], [onDataReceived("c\n")] and one [displayData()]
    leave exactly one closed line, "abc" (followed by the new, empty open
    line), and an empty staging buffer; the only signals are one
    [lineReceived("abc")] and [dataReceived]. *)
Theorem C9_staging_batches_deliveries (now : QString) (c : Console) :
  m_lines c = [] ->
  m_dataBuffer c = [] ->
  m_displayMode c = DisplayPlainText ->
  m_showTimestamp c = false ->
  exists c' : Console,
    calls [CallOnDataReceived (qbytes "ab");
           CallOnDataReceived (qbytes "c" ++ [LF]);
           CallDisplayData now] c
    = Some (c', [lineReceived (qstr "abc"); dataReceived])
    /\ closedLines c' = [qstr "abc"]
    /\ m_lines c' = [qstr "abc"; []]
    /\ m_dataBuffer c' = [].
Proof.
  intros Hl Hb Hd Hs. destruct c as [dm le disp hi e a st ta ls buf his g].
  cbn in Hl, Hb, Hd, Hs. subst.
  destruct ta; vm_compute; eexists; (split; [reflexivity|]); repeat split; reflexivity.
Qed.

(** A new console with the timestamps switched off. *)
Lemma C9_staging_batches_deliveries_witness :
  exists c' : Console,
    calls [CallOnDataReceived (qbytes "ab");
           CallOnDataReceived (qbytes "c" ++ [LF]);
           CallDisplayData T_] (set_showTimestamp false Console_new)
    = Some (c', [lineReceived (qstr "abc"); dataReceived])
    /\ closedLines c' = [qstr "abc"]
    /\ m_lines c' = [qstr "abc"; []]
    /\ m_dataBuffer c' = [].
Proof.
  apply (C9_staging_batches_deliveries T_ (set_showTimestamp false Console_new));
    reflexivity.
Defined.

(** ** The line buffer *)

(** C6 (as the code has it): [append("hello\nworld", true)] on a console
    with no lines and the timestamp flag clear, at the time "T -> ", leaves
    two lines: the closed line "T -> hello" at index 0 and the open line
    "T -> world" at index 1, which carries its timestamp already; it emits
    exactly one [lineReceived], for "T -> hello", then [dataReceived], and no
    [stringReceived]. *)
Theorem C6_hello_world_lines (c : Console) :
  m_lines c = [] ->
  m_timestampAdded c = false ->
  m_lines (fst (append T_ helloWorld true c)) = [qstr "T -> hello"; qstr "T -> world"]
  /\ closedLines (fst (append T_ helloWorld true c)) = [qstr "T -> hello"]
  /\ m_timestampAdded (fst (append T_ helloWorld true c)) = true
  /\ snd (append T_ helloWorld true c)
     = [lineReceived (qstr "T -> hello"); dataReceived].
Proof.
  intros Hl Hf. destruct c as [dm le disp hi e a st ta ls buf his g].
  cbn in Hl, Hf. subst.
  vm_compute. repeat split; reflexivity.
Qed.

(** The scenario on a new console. *)
Lemma C6_hello_world_lines_witness :
  m_lines (fst (append T_ helloWorld true Console_new))
  = [qstr "T -> hello"; qstr "T -> world"]
  /\ closedLines (fst (append T_ helloWorld true Console_new)) = [qstr "T -> hello"]
  /\ m_timestampAdded (fst (append T_ helloWorld true Console_new)) = true
  /\ snd (append T_ helloWorld true Console_new)
     = [lineReceived (qstr "T -> hello"); dataReceived].
Proof.
  apply (C6_hello_world_lines Console_new); reflexivity.
Defined.

(** C6 as stated fails: the open line at index 1 is not the bare "world". *)
Lemma C6_open_line_is_stamped :
  m_lines Console_new = []
  /\ m_timestampAdded Console_new = false
  /\ m_lines (fst (append T_ helloWorld true Console_new))
     <> [qstr "T -> hello"; qstr "world"]
  /\ at_ (m_lines (fst (append T_ helloWorld true Console_new))) 1
     = qstr "T -> world".
Proof.
  repeat split; try reflexivity. vm_compute. discriminate.
Qed.

Section AppendChar.

Lemma replaceAt_snoc {A} (pre : list A) (x y : A) :
  replaceAt (length pre) y (pre ++ [x]) = pre ++ [y].
Proof. induction pre as [|a pre IH]; cbn; [reflexivity | now rewrite IH]. Qed.

Lemma count_snoc_pred {A} (pre : list A) (x : A) :
  Z.to_nat (count (pre ++ [x]) - 1) = length pre.
Proof. unfold count. rewrite length_app. cbn. lia. Qed.

Lemma length_snoc_pred {A} (pre : list A) (x : A) :
  (length (pre ++ [x]) - 1)%nat = length pre.
Proof. rewrite length_app. cbn. lia. Qed.

Lemma snoc_cases {A} (l : list A) : l = [] \/ exists pre x, l = pre ++ [x].
Proof.
  destruct l as [|a l] using rev_ind; [now left | right; eauto].
Qed.

(** One round of the loop of [append], on a console whose last line is [l]
    and whose last ghost entry is [g]. *)
Lemma appendChar_snoc (timestamp : QString) (addTimestamp : bool) (ch : QChar)
    (c : Console) (pre : QStringList) (l : QString)
    (gpre : list (list nat)) (g : list nat) :
  m_lines c = pre ++ [l] ->
  stamps c = gpre ++ [g] ->
  appendChar timestamp addTimestamp c ch
  = let l1 := if m_timestampAdded c then l else l ++ timestamp in
    let g1 := if m_timestampAdded c then g
              else if addTimestamp then g ++ [length l] else g in
    if isBreak ch
    then set_timestampAdded false
           (set_stamps (gpre ++ [g1; []]) (set_lines (pre ++ [l1; []]) c))
    else set_timestampAdded true
           (set_stamps (gpre ++ [g1]) (set_lines (pre ++ [l1 ++ [ch]]) c)).
Proof.
  intros Hl Hg. destruct c as [dm le disp hi e a st ta ls buf his gs].
  cbn in Hl, Hg. subst ls gs.
  unfold appendChar, replaceLastLine, noteStamp, appendEmptyLine, lineCount, isBreak.
  cbn [m_timestampAdded m_lines stamps set_lines set_stamps set_timestampAdded
       m_dataMode m_lineEnding m_displayMode m_historyItem m_echo m_autoscroll
       m_showTimestamp m_dataBuffer m_historyItems negb].
  destruct ta, addTimestamp; cbn [negb m_timestampAdded m_lines stamps set_lines set_stamps
       set_timestampAdded m_dataMode m_lineEnding m_displayMode m_historyItem m_echo
       m_autoscroll m_showTimestamp m_dataBuffer m_historyItems];
    rewrite ?last_last, ?count_snoc_pred, ?length_snoc_pred, ?replaceAt_snoc,
            ?last_last, ?count_snoc_pred, ?replaceAt_snoc;
    destruct ((ch =? LF) || (ch =? CR));
    cbn [m_timestampAdded m_lines stamps set_lines set_stamps
       set_timestampAdded m_dataMode m_lineEnding m_displayMode m_historyItem m_echo
       m_autoscroll m_showTimestamp m_dataBuffer m_historyItems];
    rewrite ?last_last, ?count_snoc_pred, ?length_snoc_pred, ?replaceAt_snoc,
            <- ?app_assoc; reflexivity.
Qed.

End AppendChar.

Section LineBuffer.

Variable T : QString -> Prop.
Variable timestamp : QString.
Variable addTimestamp : bool.
Hypothesis timestamp_T : addTimestamp = true -> T timestamp.

Lemma LineInv_snoc (c : Console) :
  m_lines c <> [] ->
  LineInv T c ->
  exists pre l gpre g,
    m_lines c = pre ++ [l] /\ stamps c = gpre ++ [g]
    /\ Forall2 (lineOk T) pre gpre /\ lineOk T l g.
Proof.
  intros Hne [Hok _].
  destruct (snoc_cases (m_lines c)) as [E | (pre & l & Hl)]; [contradiction|].
  rewrite Hl in Hok.
  apply Forall2_app_inv_l in Hok.
  destruct Hok as (gpre & g' & Hpre & Hg & Hs).
  inversion Hg as [|? g ? gnil Hlg Hnil]; subst. inversion Hnil; subst.
  exists pre, l, gpre, g. auto.
Qed.

Lemma appendChar_inv (c : Console) (ch : QChar) :
  m_lines c <> [] ->
  LineInv T c ->
  LineInv T (appendChar timestamp addTimestamp c ch)
  /\ m_lines (appendChar timestamp addTimestamp c ch) <> []
  /\ OpenInv (appendChar timestamp addTimestamp c ch).
Proof.
  intros Hne Hinv.
  destruct (LineInv_snoc c Hne Hinv) as (pre & l & gpre & g & Hl & Hg & Hpre & Hlg).
  destruct Hinv as [_ Hpend].
  rewrite (appendChar_snoc timestamp addTimestamp ch c pre l gpre g Hl Hg).
  rewrite Hl, Hg in Hpend. clear Hl Hg Hne.
  unfold OpenInv, LineInv.
  destruct c as [dm le disp hi e a st ta ls buf his gs]; cbn in *.
  assert (Hl1 : forall tail,
             lineOk T ((if ta then l else l ++ timestamp) ++ tail)
               (if ta then g else if addTimestamp then g ++ [length l] else g)).
  { intros tail. destruct ta.
    - destruct Hlg as [-> | (-> & now & rest & Hnow & ->)]; [now left | right].
      split; [reflexivity|]. exists now, (rest ++ tail).
      rewrite app_assoc. auto.
    - destruct (Hpend eq_refl) as [El Eg].
      rewrite last_last in El, Eg. subst l g.
      destruct addTimestamp; [right | now left].
      split; [reflexivity|]. exists timestamp, tail. auto. }
  destruct (isBreak ch); cbn.
  - repeat split.
    + apply Forall2_app; [assumption|].
      constructor; [|constructor; [now left | constructor]].
      pose proof (Hl1 []) as H0. rewrite app_nil_r in H0. exact H0.
    + change [?x; ?y] with ([x] ++ [y]). rewrite app_assoc. apply last_last.
    + change [?x; ?y] with ([x] ++ [y]). rewrite app_assoc. apply last_last.
    + intros E; destruct (app_eq_nil _ _ E); discriminate.
    + discriminate.
  - repeat split.
    + apply Forall2_app; [assumption|].
      constructor; [apply Hl1 | constructor].
    + discriminate.
    + discriminate.
    + intros E; destruct (app_eq_nil _ _ E); discriminate.
    + intros _ _. rewrite last_last. intros E.
      destruct (app_eq_nil _ _ E); discriminate.
Qed.

Lemma appendChars_inv (data : QString) (c : Console) :
  m_lines c <> [] ->
  LineInv T c ->
  LineInv T (fold_left (appendChar timestamp addTimestamp) data c)
  /\ m_lines (fold_left (appendChar timestamp addTimestamp) data c) <> [].
Proof.
  revert c. induction data as [|ch data IH]; intros c Hne Hinv.
  - cbn. auto.
  - cbn [fold_left].
    destruct (appendChar_inv c ch Hne Hinv) as (H1 & H2 & H3).
    apply IH; auto.
Qed.

Lemma appendChars_open (data : QString) (c : Console) :
  m_lines c <> [] ->
  LineInv T c ->
  data <> [] ->
  OpenInv (fold_left (appendChar timestamp addTimestamp) data c).
Proof.
  intros Hne Hinv Hd.
  destruct (snoc_cases data) as [E | (d & b & ->)]; [contradiction|].
  rewrite fold_left_app. cbn [fold_left].
  destruct (appendChars_inv d c Hne Hinv) as [H1 H2].
  now apply appendChar_inv.
Qed.

(** Text that ends in a line break leaves the timestamp flag clear. *)
Lemma appendChars_break (d : QString) (b : QChar) (c : Console) :
  m_lines c <> [] ->
  LineInv T c ->
  isBreak b = true ->
  m_timestampAdded (fold_left (appendChar timestamp addTimestamp) (d ++ [b]) c) = false.
Proof.
  intros Hne Hinv Hb.
  rewrite fold_left_app. cbn [fold_left].
  destruct (appendChars_inv d c Hne Hinv) as [H1 H2].
  destruct (LineInv_snoc _ H2 H1) as (pre & l & gpre & g & Hl & Hg & _).
  rewrite (appendChar_snoc timestamp addTimestamp b _ pre l gpre g Hl Hg).
  rewrite Hb. reflexivity.
Qed.

(** Text without line breaks goes to the end of the open line; when the
    timestamp flag is set, nothing else changes. *)
Lemma appendChars_plain (data : QString) :
  forall (c : Console) pre l gpre g,
  m_lines c = pre ++ [l] ->
  stamps c = gpre ++ [g] ->
  m_timestampAdded c = true ->
  Forall (fun ch => isBreak ch = false) data ->
  fold_left (appendChar timestamp addTimestamp) data c
  = set_lines (pre ++ [l ++ data]) c.
Proof.
  induction data as [|ch data IH]; intros c pre l gpre g Hl Hg Hf Hd.
  - cbn [fold_left]. rewrite app_nil_r. destruct c; cbn in *. now subst.
  - inversion_clear Hd as [|? ? Hch Hd'].
    cbn [fold_left].
    rewrite (appendChar_snoc timestamp addTimestamp ch c pre l gpre g Hl Hg).
    rewrite Hf, Hch. cbn zeta.
    rewrite (IH _ pre (l ++ [ch]) gpre g); try assumption.
    + rewrite <- app_assoc. cbn. destruct c; cbn in *. now subst.
    + now destruct c.
    + now destruct c.
    + now destruct c.
Qed.

End LineBuffer.

Section Normalise.

(** What [data.replace("\r\n", "\n")] does to the first character. *)
Lemma replace_crlf_cons (ch : QChar) (s : QString) :
  replace [CR; LF] [LF] (ch :: s)
  = match s with
    | x :: s' =>
        if (ch =? CR) && (x =? LF) then LF :: replace [CR; LF] [LF] s'
        else ch :: replace [CR; LF] [LF] s
    | [] => [ch]
    end.
Proof.
  unfold replace. cbn [replace_from startsWith length Nat.sub].
  rewrite (Z.eqb_sym CR ch).
  destruct s as [|x s']; cbn [startsWith].
  - rewrite andb_false_r. reflexivity.
  - rewrite (Z.eqb_sym LF x), andb_true_r.
    destruct ((ch =? CR) && (x =? LF)); reflexivity.
Qed.

Lemma replace_crlf_nonempty (s : QString) :
  s <> [] -> replace [CR; LF] [LF] s <> [].
Proof.
  destruct s as [|ch s]; [congruence|]. intros _.
  rewrite replace_crlf_cons.
  destruct s as [|x s']; [discriminate|].
  destruct ((ch =? CR) && (x =? LF)); discriminate.
Qed.

Lemma replace_crlf_plain (s : QString) :
  Forall (fun ch => isBreak ch = false) s -> replace [CR; LF] [LF] s = s.
Proof.
  induction 1 as [|ch s Hch Hs IH]; [reflexivity|].
  rewrite replace_crlf_cons. destruct s as [|x s']; [reflexivity|].
  unfold isBreak in Hch. apply orb_false_elim in Hch. destruct Hch as [_ Hcr].
  rewrite Hcr. cbn [andb]. now rewrite IH.
Qed.

Lemma last_cons_cons {A} (a b : A) (l : list A) (d : A) :
  last (a :: b :: l) d = last (b :: l) d.
Proof. reflexivity. Qed.

Lemma replace_crlf_endsLine_aux (n : nat) :
  forall s : QString,
  (length s <= n)%nat ->
  endsLine s = true ->
  exists d b, replace [CR; LF] [LF] s = d ++ [b] /\ isBreak b = true.
Proof.
  induction n as [|n IH]; intros s Hn He.
  - destruct s; [discriminate He | cbn in Hn; lia].
  - destruct s as [|ch s]; [discriminate He|].
    rewrite replace_crlf_cons.
    destruct s as [|x s'].
    + exists [], ch. split; [reflexivity | exact He].
    + cbn [endsLine] in He. rewrite last_cons_cons in He.
      destruct ((ch =? CR) && (x =? LF)).
      * destruct s' as [|y s''].
        -- exists [], LF. split; reflexivity.
        -- rewrite last_cons_cons in He.
           destruct (IH (y :: s'')) as (d & b & Hd & Hb).
           { cbn in Hn |- *. lia. }
           { exact He. }
           exists (LF :: d), b. rewrite Hd. split; [reflexivity | exact Hb].
      * destruct (IH (x :: s')) as (d & b & Hd & Hb).
        { cbn in Hn |- *. lia. }
        { exact He. }
        exists (ch :: d), b. rewrite Hd. split; [reflexivity | exact Hb].
Qed.

Lemma replace_crlf_endsLine (s : QString) :
  endsLine s = true ->
  exists d b, replace [CR; LF] [LF] s = d ++ [b] /\ isBreak b = true.
Proof. apply (replace_crlf_endsLine_aux (length s)). lia. Qed.

End Normalise.

Section Calls.

Variable T : QString -> Prop.

Lemma sameLines_inv (c c' : Console) :
  sameLines c c' -> ConsoleInv T c -> ConsoleInv T c'.
Proof.
  intros (Hl & Hg & Hf) Hinv.
  unfold ConsoleInv, LineInv, OpenInv in *. rewrite Hl, Hg, Hf. exact Hinv.
Qed.

Lemma sameLines_refl (c : Console) : sameLines c c.
Proof. repeat split. Qed.

Lemma Console_new_inv : ConsoleInv T Console_new.
Proof.
  repeat split; cbn; try constructor; try discriminate.
Qed.

Lemma clear_inv (c : Console) : ConsoleInv T (fst (clear c)).
Proof.
  repeat split; cbn; try constructor.
  intros _ H. now contradiction H.
Qed.

Lemma appendEmptyLine_inv (c : Console) :
  m_lines c = [] ->
  LineInv T c ->
  LineInv T (appendEmptyLine c) /\ m_lines (appendEmptyLine c) <> [].
Proof.
  intros Hl [Hok Hp]. rewrite Hl in Hok. inversion Hok as [Hg|]. symmetry in Hg.
  destruct c as [dm le disp hi e a st ta ls buf his gs]; cbn in *. subst.
  repeat split; cbn; try discriminate.
  constructor; [now left | constructor].
Qed.

Lemma append_inv (now string : QString) (addTimestamp : bool) (c : Console) :
  (addTimestamp = true -> T now) ->
  ConsoleInv T c ->
  ConsoleInv T (fst (append now string addTimestamp c)).
Proof.
  intros HT [Hinv Hopen].
  destruct string as [|ch s]; [split; assumption|].
  unfold append. cbn [fst].
  set (timestamp := if addTimestamp then now else []).
  assert (HT' : addTimestamp = true -> T timestamp).
  { intros E. subst timestamp. rewrite E. auto. }
  set (data := replace [CR; LF] [LF] (ch :: s)).
  assert (Hd : data <> []) by (apply replace_crlf_nonempty; discriminate).
  set (c1 := if lineCount c =? 0 then appendEmptyLine c else c).
  assert (H1 : LineInv T c1 /\ m_lines c1 <> []).
  { subst c1. unfold lineCount, count.
    destruct (m_lines c) as [|x ls] eqn:El.
    - cbn. now apply appendEmptyLine_inv.
    - cbn [length]. replace (Z.of_nat (S (length ls)) =? 0) with false.
      + split; [assumption | rewrite El; discriminate].
      + symmetry. apply Z.eqb_neq. lia. }
  destruct H1 as [H1 H2].
  split.
  - apply (appendChars_inv T timestamp addTimestamp HT'); assumption.
  - apply (appendChars_open T timestamp addTimestamp HT'); assumption.
Qed.

Lemma append_endsLine (now string : QString) (addTimestamp : bool) (c : Console) :
  (addTimestamp = true -> T now) ->
  LineInv T c ->
  endsLine string = true ->
  m_timestampAdded (fst (append now string addTimestamp c)) = false.
Proof.
  intros HT Hinv He.
  destruct (replace_crlf_endsLine string He) as (d & b & Hd & Hb).
  destruct string as [|ch s]; [discriminate He|].
  unfold append. cbn [fst].
  set (timestamp := if addTimestamp then now else []).
  assert (HT' : addTimestamp = true -> T timestamp).
  { intros E. subst timestamp. rewrite E. auto. }
  rewrite Hd.
  set (c1 := if lineCount c =? 0 then appendEmptyLine c else c).
  assert (H1 : LineInv T c1 /\ m_lines c1 <> []).
  { subst c1. unfold lineCount, count.
    destruct (m_lines c) as [|x ls] eqn:El.
    - cbn. now apply appendEmptyLine_inv.
    - cbn [length]. replace (Z.of_nat (S (length ls)) =? 0) with false.
      + split; [assumption | rewrite El; discriminate].
      + symmetry. apply Z.eqb_neq. lia. }
  destruct H1 as [H1 H2].
  apply (appendChars_break T timestamp addTimestamp HT'); assumption.
Qed.

Lemma set_timestampAdded_same (c : Console) :
  set_timestampAdded (m_timestampAdded c) c = c.
Proof. now destruct c. Qed.

Lemma addToHistory_sameLines (command : QString) (c : Console) :
  sameLines c (fst (addToHistory command c)).
Proof. repeat split. Qed.

(** [send] either leaves the line buffer alone, or appends the echoed text
    and clears the timestamp flag. *)
Lemma send_cases (dev : Device) (now data : QString) (c c' : Console)
    (signals : list Signal) :
  send dev now data c = Some (c', signals) ->
  (echoText dev data c = None /\ sameLines c c')
  \/ (exists text,
        echoText dev data c = Some text
        /\ c' = set_timestampAdded false
                  (fst (append now text (m_showTimestamp c)
                          (fst (addToHistory data c))))).
Proof.
  unfold send, echoText.
  destruct data as [|ch s].
  { intros H. injection H as <- _. left. split; [reflexivity | apply sameLines_refl]. }
  destruct (connected dev); cbn [negb].
  2:{ intros H. injection H as <- _. left. split; [reflexivity | apply sameLines_refl]. }
  cbn [addToHistory].
  set (c0 := set_historyItem _ _).
  assert (Hc0 : sameLines c c0) by (repeat split).
  change (m_dataMode c0) with (m_dataMode c).
  change (m_lineEnding c0) with (m_lineEnding c).
  change (m_echo c0) with (m_echo c).
  change (m_showTimestamp c0) with (m_showTimestamp c).
  destruct (match m_dataMode c with
            | DataUTF8 => Some (toUtf8 (ch :: s))
            | DataHexadecimal => hexToBytes (ch :: s)
            end) as [bin|]; [|discriminate].
  destruct (0 <? writeData dev (bin ++ lineEndingBytes (m_lineEnding c))); cbn [andb].
  2:{ intros H. injection H as <- _. left. split; [reflexivity | assumption]. }
  destruct (m_echo c).
  2:{ intros H. injection H as <- _. left. split; [reflexivity | assumption]. }
  change (dataToString c0) with (dataToString c).
  destruct (append now _ (m_showTimestamp c) c0) as [c1 sig2] eqn:Ea.
  intros H. injection H as <- _. right.
  eexists. split; [reflexivity|].
  change (fst (addToHistory (ch :: s) c)) with c0. rewrite Ea. reflexivity.
Qed.

Lemma some_pair_fst {A B} (x : A * B) (a : A) (b : B) :
  Some x = Some (a, b) -> a = fst x.
Proof. intros H. injection H as ->. reflexivity. Qed.

Lemma call_inv (k : Call) (c c' : Console) (signals : list Signal) :
  (forall now, In now (nowOf k) -> T now) ->
  ConsoleInv T c ->
  closesEcho k c = true ->
  call k c = Some (c', signals) ->
  ConsoleInv T c'.
Proof.
  intros HT Hinv Hecho Hcall.
  destruct k; cbn [call] in Hcall;
    try (apply some_pair_fst in Hcall; subst c').
  - (* append *)
    apply append_inv; [|assumption].
    intros _. apply HT. now left.
  - (* displayData *)
    unfold displayData.
    destruct (append now _ (m_showTimestamp c) c) as [c1 s1] eqn:Ea.
    apply (sameLines_inv c1); [repeat split|].
    replace c1 with (fst (append now (dataToString c (m_dataBuffer c)) (m_showTimestamp c) c))
      by now rewrite Ea.
    apply append_inv; [|assumption].
    intros _. apply HT. now left.
  - (* onDataReceived *)
    apply (sameLines_inv c); [repeat split | assumption].
  - (* clear *)
    apply clear_inv.
  - (* send *)
    apply send_cases in Hcall.
    destruct Hcall as [[_ Hsame] | (text & Htext & ->)].
    + now apply (sameLines_inv c).
    + cbn [closesEcho] in Hecho. rewrite Htext in Hecho.
      assert (HTnow : m_showTimestamp c = true -> T now).
      { intros _. apply HT. now left. }
      assert (H0 : ConsoleInv T (fst (addToHistory data c))).
      { apply (sameLines_inv c); [apply addToHistory_sameLines | assumption]. }
      rewrite <- (append_endsLine now text (m_showTimestamp c) _ HTnow (proj1 H0) Hecho).
      rewrite set_timestampAdded_same.
      now apply append_inv.
  - (* historyUp *)
    apply (sameLines_inv c); [|assumption].
    unfold historyUp. destruct (0 <? m_historyItem c); repeat split.
  - (* historyDown *)
    apply (sameLines_inv c); [|assumption].
    unfold historyDown.
    destruct (m_historyItem c <? count (m_historyItems c) - 1); repeat split.
  - apply (sameLines_inv c); [repeat split | assumption].
  - apply (sameLines_inv c); [repeat split | assumption].
  - apply (sameLines_inv c); [repeat split | assumption].
  - apply (sameLines_inv c); [repeat split | assumption].
  - apply (sameLines_inv c); [repeat split | assumption].
  - apply (sameLines_inv c); [repeat split | assumption].
Qed.

Lemma calls_inv (ks : list Call) :
  forall (c c' : Console) (signals : list Signal),
  (forall k now, In k ks -> In now (nowOf k) -> T now) ->
  ConsoleInv T c ->
  echoesClosed ks c ->
  calls ks c = Some (c', signals) ->
  ConsoleInv T c'.
Proof.
  induction ks as [|k ks IH]; intros c c' signals HT Hinv Hecho Hcalls.
  - cbn in Hcalls. injection Hcalls as <- _. assumption.
  - cbn [calls] in Hcalls. cbn [echoesClosed] in Hecho.
    destruct Hecho as [Hk Hrest].
    destruct (call k c) as [[c1 s1]|] eqn:Ek; [|discriminate].
    destruct (calls ks c1) as [[c2 s2]|] eqn:Eks; [|discriminate].
    injection Hcalls as <- _.
    apply (IH c1 c2 s2); auto.
    + intros k' now Hin. apply HT. now right.
    + apply (call_inv k c c1 s1); auto.
      intros now. apply HT. now left.
Qed.

End Calls.

(** C2 (as the code has it): across every sequence of calls on a new console
    (append, displayData, onDataReceived, clear, send, history navigation and
    the setters) in which every text echoed by [send] ends in a line break,
    [append] puts at most one timestamp into each line of the scrollback, at
    offset 0, so that the line starts with a timestamp read by one of the
    calls. *)
Theorem C2_one_timestamp_at_line_start (ks : list Call) (c' : Console)
    (signals : list Signal) :
  echoesClosed ks Console_new ->
  calls ks Console_new = Some (c', signals) ->
  Forall2 (lineOk (fun now => In now (flat_map nowOf ks))) (m_lines c') (stamps c').
Proof.
  intros Hecho Hcalls.
  apply (calls_inv (fun now => In now (flat_map nowOf ks)) ks Console_new c' signals);
    try assumption.
  - intros k now Hk Hnow. apply in_flat_map. eauto.
  - apply Console_new_inv.
Qed.

(** An echoed command with a line feed as line ending, then a received
    line: three lines, the first two stamped once. *)
Lemma C2_one_timestamp_at_line_start_witness :
  exists (c' : Console) (signals : list Signal),
    echoesClosed echoLineThenInbound Console_new
    /\ calls echoLineThenInbound Console_new = Some (c', signals)
    /\ m_lines c' = [qstr "T -> abc"; qstr "T -> def"; []]
    /\ Forall2 (lineOk (fun now => In now (flat_map nowOf echoLineThenInbound)))
         (m_lines c') (stamps c').
Proof.
  destruct (calls echoLineThenInbound Console_new) as [[c' signals]|] eqn:E;
    [|vm_compute in E; discriminate E].
  exists c', signals.
  assert (Hecho : echoesClosed echoLineThenInbound Console_new)
    by (vm_compute; auto).
  split; [exact Hecho|]. split; [reflexivity|]. split.
  - vm_compute in E. injection E as <- _. reflexivity.
  - exact (C2_one_timestamp_at_line_start echoLineThenInbound c' signals Hecho E).
Defined.

(** C2 as stated fails: an echoed command without line ending leaves its line
    open with the timestamp flag cleared, and the next received text puts a
    second timestamp into that line, at offset 8. *)
Lemma C2_echo_then_inbound_stamps_twice :
  exists (c' : Console) (signals : list Signal),
    calls echoThenInbound Console_new = Some (c', signals)
    /\ closedLines c' = [qstr "T -> abcT -> def"]
    /\ stamps c' = [[0%nat; 8%nat]; []]
    /\ ~ Forall2 (lineOk (fun now => In now (flat_map nowOf echoThenInbound)))
           (m_lines c') (stamps c').
Proof.
  eexists. eexists. split; [vm_compute; reflexivity|].
  split; [reflexivity|]. split; [reflexivity|].
  intros H. inversion H as [|l g ls gs Hlg _]; subst.
  destruct Hlg as [Hg | [Hg _]]; discriminate Hg.
Qed.

(** C7 (what the code does): [clear] leaves [m_timestampAdded] as it is.  On
    every console whose timestamp flag is set, after [clear()] the first
    [append] with [addTimestamp = true] opens line 0 and puts the text into
    it without a timestamp: for text without line breaks the scrollback is
    the bare text, not the timestamp followed by the text. *)
Theorem C7_clear_keeps_timestamp_flag (c : Console) (now string : QString) :
  m_timestampAdded c = true ->
  string <> [] ->
  Forall (fun ch => isBreak ch = false) string ->
  m_timestampAdded (fst (clear c)) = true
  /\ m_lines (fst (append now string true (fst (clear c)))) = [string]
  /\ stamps (fst (append now string true (fst (clear c)))) = [[]].
Proof.
  intros Hf Hne Hplain.
  destruct c as [dm le disp hi e a st ta ls buf his gs]. cbn in Hf. subst ta.
  split; [reflexivity|].
  destruct string as [|ch s]; [congruence|].
  unfold append. cbn [fst]. rewrite (replace_crlf_plain _ Hplain).
  cbn [clear fst set_lines set_stamps set_dataBuffer lineCount count m_lines length
       Z.of_nat Z.eqb m_dataMode m_lineEnding m_displayMode m_historyItem m_echo
       m_autoscroll m_showTimestamp m_timestampAdded m_dataBuffer m_historyItems stamps].
  rewrite (appendChars_plain now true (ch :: s) _ [] [] [] []); try reflexivity;
    [|assumption].
  split; reflexivity.
Qed.

(** A console that has shown "a" with its timestamp, cleared, then "b". *)
Lemma C7_clear_keeps_timestamp_flag_witness :
  m_timestampAdded (fst (append T_ (qstr "a") true Console_new)) = true
  /\ m_lines (fst (append T_ (qstr "b") true
                     (fst (clear (fst (append T_ (qstr "a") true Console_new))))))
     = [qstr "b"].
Proof.
  split; [reflexivity|].
  apply (C7_clear_keeps_timestamp_flag
           (fst (append T_ (qstr "a") true Console_new)) T_ (qstr "b")).
  - reflexivity.
  - discriminate.
  - repeat constructor.
Defined.

(** ** Hexadecimal text *)

Section HexToBytes.

Lemma replace_space (s : QString) :
  replace (qstr " ") [] s = filter (fun ch => negb (ch =? SPACE)) s.
Proof.
  change (qstr " ") with [SPACE]. unfold replace.
  induction s as [|ch s IH]; [reflexivity|].
  cbn [replace_from startsWith length Nat.sub filter app].
  rewrite andb_true_r, (Z.eqb_sym SPACE ch).
  destruct (ch =? SPACE); cbn [negb]; now rewrite IH.
Qed.

Lemma hexVal_range (ch : QChar) (v : Z) : hexVal ch = Some v -> 0 <= v < 16.
Proof.
  unfold hexVal, between.
  destruct (48 <=? ch) eqn:E1, (ch <=? 57) eqn:E2; cbn [andb];
  destruct (97 <=? ch) eqn:E3, (ch <=? 102) eqn:E4; cbn [andb];
  destruct (65 <=? ch) eqn:E5, (ch <=? 70) eqn:E6; cbn [andb];
  intros H; try discriminate H; injection H as <-; lia.
Qed.

Lemma toInt16_hex (c1 c2 : QChar) (h l : Z) :
  hexVal c1 = Some h -> hexVal c2 = Some l -> toInt16 c1 c2 mod 256 = 16 * h + l.
Proof.
  intros H1 H2. unfold toInt16. rewrite H1, H2.
  apply hexVal_range in H1. apply hexVal_range in H2.
  apply Z.mod_small. lia.
Qed.

Lemma toInt16_notNumeric (c1 c2 : QChar) :
  notNumeric c1 || notNumeric c2 = true -> toInt16 c1 c2 mod 256 = 0.
Proof.
  unfold notNumeric, toInt16.
  destruct (hexVal c1), (hexVal c2); cbn [orb]; try discriminate.
  - destruct (isSpace c2); [discriminate | reflexivity].
  - destruct (isSpace c1); [discriminate|].
    destruct (c1 =? 43); [discriminate|].
    destruct (c1 =? 45); [discriminate|].
    destruct (c1 =? 8722); [discriminate | reflexivity].
  - reflexivity.
Qed.

Lemma hexPairs_even (n : nat) :
  forall s : QString,
  (length s <= n)%nat ->
  Nat.even (length s) = true ->
  exists bytes,
    hexPairs s = Some bytes /\ Forall2 groupByte (groupsOf s) bytes.
Proof.
  induction n as [|n IH]; intros s Hn He.
  - destruct s; [|cbn in Hn; lia]. exists []. split; [reflexivity | constructor].
  - destruct s as [|c1 [|c2 rest]].
    + exists []. split; [reflexivity | constructor].
    + discriminate He.
    + destruct (IH rest) as (bytes & Hb & Hg).
      { cbn in Hn. lia. }
      { exact He. }
      exists (toInt16 c1 c2 mod 256 :: bytes).
      cbn [hexPairs groupsOf]. rewrite Hb. split; [reflexivity|].
      constructor; [|assumption].
      split; cbn [fst snd].
      * intros h l. apply toInt16_hex.
      * apply toInt16_notNumeric.
Qed.

Lemma hexPairs_parse (n : nat) :
  forall (s : QString) (expected : QByteArray),
  (length s <= n)%nat ->
  parseHexPairs s = Some expected ->
  hexPairs s = Some expected.
Proof.
  induction n as [|n IH]; intros s expected Hn Hp.
  - destruct s; [exact Hp | cbn in Hn; lia].
  - destruct s as [|c1 [|c2 rest]]; try exact Hp.
    cbn [parseHexPairs] in Hp. cbn [hexPairs].
    destruct (hexVal c1) as [h|] eqn:E1; [|discriminate].
    destruct (hexVal c2) as [l|] eqn:E2; [|discriminate].
    destruct (parseHexPairs rest) as [bytes|] eqn:E3; [|discriminate].
    injection Hp as <-.
    rewrite (IH rest bytes); [|cbn in Hn; lia | exact E3].
    now rewrite (toInt16_hex c1 c2 h l E1 E2).
Qed.

End HexToBytes.

(** C3 (as the code has it): [hexToBytes] has no error result.  For every
    input whose space-stripped length is even it returns one byte per
    2-character group: the value of the group when both characters are
    hexadecimal digits, and 0 when a character of the group cannot be part
    of a number.  For every well-formed input these are the bytes that
    parsing the stripped text in 2-character hex groups gives. *)
Theorem C3_hexToBytes_never_rejects (text : QString) :
  Nat.even (length (replace (qstr " ") [] text)) = true ->
  exists bytes,
    hexToBytes text = Some bytes
    /\ Forall2 groupByte (groupsOf (replace (qstr " ") [] text)) bytes
    /\ (forall expected, encodeFromHex_spec text = Some expected -> bytes = expected).
Proof.
  intros He. unfold hexToBytes.
  destruct (hexPairs_even _ _ (le_n _) He) as (bytes & Hb & Hg).
  exists bytes. repeat split; try assumption.
  intros expected Hs. unfold encodeFromHex_spec in Hs.
  rewrite <- replace_space in Hs.
  apply (hexPairs_parse _ _ _ (le_n _)) in Hs. congruence.
Qed.

(** Three groups, the second one malformed. *)
Lemma C3_hexToBytes_never_rejects_witness :
  Nat.even (length (replace (qstr " ") [] (qstr "68 zz 6C"))) = true
  /\ exists bytes,
       hexToBytes (qstr "68 zz 6C") = Some bytes
       /\ Forall2 groupByte (groupsOf (replace (qstr " ") [] (qstr "68 zz 6C"))) bytes
       /\ (forall expected,
             encodeFromHex_spec (qstr "68 zz 6C") = Some expected -> bytes = expected).
Proof.
  split; [reflexivity|].
  apply (C3_hexToBytes_never_rejects (qstr "68 zz 6C")). reflexivity.
Defined.

(** C3 as stated fails: "zz" is malformed, and [hexToBytes] returns the
    byte 0 for it instead of failing. *)
Lemma C3_malformed_group_yields_zero_byte :
  encodeFromHex_spec (qstr "zz") = None
  /\ hexToBytes (qstr "zz") = Some [0]
  /\ hexToBytes (qstr "6z 41") = Some [0; 65].
Proof. repeat split. Qed.

Section HexadecimalStr.

Lemma hexDigit_cases (n : Z) :
  0 <= n < 16 ->
  (48 <= hexDigit n <= 57 \/ 97 <= hexDigit n <= 102)
  /\ (hexDigit n = 48 <-> n = 0)
  /\ (hexDigit n = 97 <-> n = 10)
  /\ (hexDigit n = 100 <-> n = 13)
  /\ hexVal (hexDigit n) = Some n.
Proof.
  intros Hn. unfold hexDigit, hexVal, between.
  destruct (n <? 10) eqn:E.
  - apply Z.ltb_lt in E.
    replace (48 <=? 48 + n) with true by (symmetry; apply Z.leb_le; lia).
    replace (48 + n <=? 57) with true by (symmetry; apply Z.leb_le; lia).
    cbn [andb]. repeat split; try lia. f_equal. lia.
  - apply Z.ltb_ge in E.
    replace (87 + n <=? 57) with false by (symmetry; apply Z.leb_gt; lia).
    replace (97 <=? 87 + n) with true by (symmetry; apply Z.leb_le; lia).
    replace (87 + n <=? 102) with true by (symmetry; apply Z.leb_le; lia).
    rewrite andb_false_r. cbn [andb]. repeat split; try lia. f_equal. lia.
Qed.

Lemma byte_nibbles (x : Z) :
  is_byte x -> 0 <= x / 16 < 16 /\ 0 <= x mod 16 < 16 /\ x = 16 * (x / 16) + x mod 16.
Proof.
  unfold is_byte. intros Hx.
  pose proof (Z.div_mod x 16 ltac:(lia)).
  pose proof (Z.mod_pos_bound x 16 ltac:(lia)).
  lia.
Qed.

Lemma addSpaces_cons (i : nat) (c : QChar) (hex : QString) :
  addSpaces i (c :: hex)
  = if Nat.eqb (Nat.modulo (i + 1) 2) 0
    then c :: SPACE :: addSpaces (S i) hex
    else c :: addSpaces (S i) hex.
Proof. reflexivity. Qed.

Lemma addSpaces_pair (k : nat) (c1 c2 : QChar) (hex : QString) :
  addSpaces (2 * k) (c1 :: c2 :: hex)
  = c1 :: c2 :: SPACE :: addSpaces (2 * S k) hex.
Proof.
  rewrite !addSpaces_cons.
  replace ((2 * k + 1) mod 2)%nat with 1%nat.
  2:{ replace (2 * k + 1)%nat with (1 + k * 2)%nat by lia.
      now rewrite Nat.Div0.mod_add. }
  replace ((S (2 * k) + 1) mod 2)%nat with 0%nat.
  2:{ replace (S (2 * k) + 1)%nat with (0 + S k * 2)%nat by lia.
      now rewrite Nat.Div0.mod_add. }
  replace (S (S (2 * k))) with (2 * S k)%nat by lia.
  reflexivity.
Qed.

Lemma addSpaces_toHex (data : QByteArray) :
  forall k : nat,
  addSpaces (2 * k) (toHex data)
  = flat_map (fun x => [hexDigit (x / 16); hexDigit (x mod 16); SPACE]) data.
Proof.
  induction data as [|x data IH]; intros k; [reflexivity|].
  cbn [toHex flat_map app]. fold (toHex data).
  rewrite addSpaces_pair, IH. reflexivity.
Qed.

(** One group of the spaced hex text under [str.replace("0a", "0a\r")]. *)
Lemma replace_0a_group (c1 c2 : QChar) (rest : QString) :
  replace (qstr "0a") (qstr "0a" ++ [CR]) (c1 :: c2 :: SPACE :: rest)
  = (if (c1 =? 48) && (c2 =? 97) then [48; 97; CR] else [c1; c2])
    ++ SPACE :: replace (qstr "0a") (qstr "0a" ++ [CR]) rest.
Proof.
  change (qstr "0a") with [48; 97]. unfold replace.
  cbn [replace_from startsWith length Nat.sub app].
  rewrite (Z.eqb_sym 48 c1), (Z.eqb_sym 97 c2), (Z.eqb_sym 48 c2), !andb_true_r.
  change (97 =? SPACE) with false. change (48 =? SPACE) with false.
  rewrite andb_false_r. cbn [andb].
  destruct ((c1 =? 48) && (c2 =? 97)); reflexivity.
Qed.

(** The same for [str.replace("0d", "0d\n")]. *)
Lemma replace_0d_group (c1 c2 : QChar) (rest : QString) :
  replace (qstr "0d") (qstr "0d" ++ [LF]) (c1 :: c2 :: SPACE :: rest)
  = (if (c1 =? 48) && (c2 =? 100) then [48; 100; LF] else [c1; c2])
    ++ SPACE :: replace (qstr "0d") (qstr "0d" ++ [LF]) rest.
Proof.
  change (qstr "0d") with [48; 100]. unfold replace.
  cbn [replace_from startsWith length Nat.sub app].
  rewrite (Z.eqb_sym 48 c1), (Z.eqb_sym 100 c2), (Z.eqb_sym 48 c2), !andb_true_r.
  change (100 =? SPACE) with false. change (48 =? SPACE) with false.
  rewrite andb_false_r. cbn [andb].
  destruct ((c1 =? 48) && (c2 =? 100)); reflexivity.
Qed.

(** A group "0a\r " has no "0d" in it. *)
Lemma replace_0d_group_0a (rest : QString) :
  replace (qstr "0d") (qstr "0d" ++ [LF]) (48 :: 97 :: CR :: SPACE :: rest)
  = 48 :: 97 :: CR :: SPACE :: replace (qstr "0d") (qstr "0d" ++ [LF]) rest.
Proof. reflexivity. Qed.

Lemma is_0a (x : Z) :
  is_byte x -> (hexDigit (x / 16) =? 48) && (hexDigit (x mod 16) =? 97) = (x =? 10).
Proof.
  intros Hx. destruct (byte_nibbles x Hx) as (Hh & Hl & Hv).
  destruct (hexDigit_cases _ Hh) as (_ & H0 & _).
  destruct (hexDigit_cases _ Hl) as (_ & _ & H10 & _).
  destruct (x =? 10) eqn:E.
  - apply Z.eqb_eq in E. apply andb_true_iff. rewrite !Z.eqb_eq. split.
    + apply H0. lia.
    + apply H10. lia.
  - apply Z.eqb_neq in E. apply andb_false_iff. rewrite !Z.eqb_neq.
    destruct (Z.eq_dec (x / 16) 0) as [Ez|Ez]; [right | left]; intuition lia.
Qed.

Lemma is_0d (x : Z) :
  is_byte x -> (hexDigit (x / 16) =? 48) && (hexDigit (x mod 16) =? 100) = (x =? 13).
Proof.
  intros Hx. destruct (byte_nibbles x Hx) as (Hh & Hl & Hv).
  destruct (hexDigit_cases _ Hh) as (_ & H0 & _).
  destruct (hexDigit_cases _ Hl) as (_ & _ & _ & H13 & _).
  destruct (x =? 13) eqn:E.
  - apply Z.eqb_eq in E. apply andb_true_iff. rewrite !Z.eqb_eq. split.
    + apply H0. lia.
    + apply H13. lia.
  - apply Z.eqb_neq in E. apply andb_false_iff. rewrite !Z.eqb_neq.
    destruct (Z.eq_dec (x / 16) 0) as [Ez|Ez]; [right | left]; intuition lia.
Qed.

(** The hex dump, byte by byte: the text replacement hits exactly the groups
    of the bytes 0x0A and 0x0D, because the space behind every group keeps a
    match from straddling two groups. *)
Lemma hexadecimalStr_render (data : QByteArray) :
  is_bytes data -> hexadecimalStr data = flat_map renderByte data.
Proof.
  intros Hb. unfold hexadecimalStr.
  rewrite (addSpaces_toHex data 0 : addSpaces 0 (toHex data) = _).
  induction Hb as [|x data Hx Hdata IH]; [reflexivity|].
  cbn [flat_map app].
  rewrite replace_0a_group, (is_0a x Hx).
  unfold renderByte at 1.
  destruct (x =? 10) eqn:E10.
  - apply Z.eqb_eq in E10. subst x.
    change (hexDigit (10 / 16)) with 48. change (hexDigit (10 mod 16)) with 97.
    cbn [app]. rewrite replace_0d_group_0a, IH. reflexivity.
  - cbn [app]. rewrite replace_0d_group, (is_0d x Hx), IH.
    destruct (x =? 13) eqn:E13; [|reflexivity].
    apply Z.eqb_eq in E13. subst x. reflexivity.
Qed.

Lemma renderByte_strip (x : Z) :
  is_byte x -> stripDisplay (renderByte x) = [hexDigit (x / 16); hexDigit (x mod 16)].
Proof.
  intros Hx. destruct (byte_nibbles x Hx) as (Hh & Hl & _).
  destruct (hexDigit_cases _ Hh) as (H1 & _).
  destruct (hexDigit_cases _ Hl) as (H2 & _).
  assert (Hkeep : forall ch, 48 <= ch <= 57 \/ 97 <= ch <= 102 ->
                    negb (ch =? SPACE) && negb (isBreak ch) = true).
  { intros ch Hch. unfold isBreak, SPACE, LF, CR.
    replace (ch =? 32) with false by (symmetry; apply Z.eqb_neq; lia).
    replace (ch =? 10) with false by (symmetry; apply Z.eqb_neq; lia).
    replace (ch =? 13) with false by (symmetry; apply Z.eqb_neq; lia).
    reflexivity. }
  unfold renderByte, stripDisplay. cbn [app filter].
  rewrite (Hkeep _ H1), (Hkeep _ H2).
  destruct (x =? 10); [reflexivity|]. destruct (x =? 13); reflexivity.
Qed.

Lemma stripDisplay_render (data : QByteArray) :
  is_bytes data -> stripDisplay (flat_map renderByte data) = toHex data.
Proof.
  induction 1 as [|x data Hx Hdata IH]; [reflexivity|].
  cbn [flat_map].
  assert (Happ : forall a b, stripDisplay (a ++ b) = stripDisplay a ++ stripDisplay b)
    by (intros a b; apply filter_app).
  rewrite Happ, (renderByte_strip x Hx), IH. reflexivity.
Qed.

Lemma parseHexPairs_toHex (data : QByteArray) :
  is_bytes data -> parseHexPairs (toHex data) = Some data.
Proof.
  induction 1 as [|x data Hx Hdata IH]; [reflexivity|].
  cbn [toHex flat_map app]. fold (toHex data). cbn [parseHexPairs].
  destruct (byte_nibbles x Hx) as (Hh & Hl & Hv).
  destruct (hexDigit_cases _ Hh) as (_ & _ & _ & _ & ->).
  destruct (hexDigit_cases _ Hl) as (_ & _ & _ & _ & ->).
  rewrite IH. now rewrite <- Hv.
Qed.

(** Without a byte 0x0A the dump has no carriage return, and without a byte
    0x0D it has no line feed. *)
Lemma render_breaks (data : QByteArray) :
  is_bytes data ->
  (In CR (flat_map renderByte data) -> In 10 data)
  /\ (In LF (flat_map renderByte data) -> In 13 data).
Proof.
  induction 1 as [|x data Hx Hdata IH]; [split; intros []|].
  destruct (byte_nibbles x Hx) as (Hh & Hl & _).
  destruct (hexDigit_cases _ Hh) as (H1 & _).
  destruct (hexDigit_cases _ Hl) as (H2 & _).
  cbn [flat_map]. unfold renderByte at 1 3. unfold CR, LF, SPACE in *.
  split; intros Hin; apply in_app_or in Hin; destruct Hin as [Hin | Hin];
    try (right; now apply IH).
  - destruct (x =? 10) eqn:E10; [apply Z.eqb_eq in E10; now left|].
    destruct (x =? 13); cbn in Hin; intuition lia.
  - destruct (x =? 13) eqn:E13; [apply Z.eqb_eq in E13; now left|].
    destruct (x =? 10); cbn in Hin; intuition lia.
Qed.

End HexadecimalStr.

(** C4: the hex dump is lossless.  For every byte sequence [b], removing the
    spaces and the carriage returns and line feeds from [hexadecimalStr b]
    leaves hexadecimal digits that parse, pair by pair, back to exactly
    [b]. *)
Theorem C4_hex_dump_is_lossless (b : QByteArray) :
  is_bytes b ->
  stripDisplay (hexadecimalStr b) = toHex b
  /\ parseHexPairs (stripDisplay (hexadecimalStr b)) = Some b.
Proof.
  intros Hb.
  rewrite (hexadecimalStr_render b Hb), (stripDisplay_render b Hb).
  split; [reflexivity | now apply parseHexPairs_toHex].
Qed.

(** Bytes whose dump has both injected line breaks. *)
Lemma C4_hex_dump_is_lossless_witness :
  is_bytes [104; 10; 13; 255; 0; 160]
  /\ parseHexPairs (stripDisplay (hexadecimalStr [104; 10; 13; 255; 0; 160]))
     = Some [104; 10; 13; 255; 0; 160].
Proof.
  assert (Hb : is_bytes [104; 10; 13; 255; 0; 160])
    by (repeat constructor; unfold is_byte; lia).
  split; [exact Hb|].
  apply (C4_hex_dump_is_lossless [104; 10; 13; 255; 0; 160] Hb).
Defined.

(** C5 (as the code has it): the substitution cannot misfire.  For every
    byte sequence [b] the hex dump is the concatenation, byte by byte, of the
    two hex digits, a carriage return if the byte is 0x0A or a line feed if
    it is 0x0D, and a space; so a carriage return in the dump comes from a
    byte 0x0A and a line feed from a byte 0x0D, and a sequence with neither
    byte has neither character. *)
Theorem C5_substitution_hits_only_0a_0d (b : QByteArray) :
  is_bytes b ->
  hexadecimalStr b = flat_map renderByte b
  /\ (In CR (hexadecimalStr b) -> In 10 b)
  /\ (In LF (hexadecimalStr b) -> In 13 b).
Proof.
  intros Hb. rewrite (hexadecimalStr_render b Hb).
  split; [reflexivity | now apply render_breaks].
Qed.

(** Bytes whose digits read "0 a" and "0 d" across the space. *)
Lemma C5_substitution_hits_only_0a_0d_witness :
  is_bytes [0; 160; 16; 208]
  /\ hexadecimalStr [0; 160; 16; 208] = qstr "00 a0 10 d0 "
  /\ (In CR (hexadecimalStr [0; 160; 16; 208]) -> In 10 [0; 160; 16; 208])
  /\ (In LF (hexadecimalStr [0; 160; 16; 208]) -> In 13 [0; 160; 16; 208]).
Proof.
  assert (Hb : is_bytes [0; 160; 16; 208])
    by (repeat constructor; unfold is_byte; lia).
  split; [exact Hb|]. split; [reflexivity|].
  apply (C5_substitution_hits_only_0a_0d [0; 160; 16; 208] Hb).
Defined.

(** C5 as stated fails: no byte sequence without 0x0A and 0x0D gets a
    carriage return or a line feed into its hex dump. *)
Lemma C5_no_misfire_exists :
  ~ exists b : QByteArray,
      is_bytes b /\ ~ In 10 b /\ ~ In 13 b
      /\ (In CR (hexadecimalStr b) \/ In LF (hexadecimalStr b)).
Proof.
  intros (b & Hb & H10 & H13 & Hin).
  rewrite (hexadecimalStr_render b Hb) in Hin.
  destruct (render_breaks b Hb) as [Hcr Hlf].
  destruct Hin as [Hin | Hin]; auto.
Qed.

(** ** Plain text *)

Section Utf8.

Ltac bounds :=
  unfold lead2, lead3, lead4, cont, isHighSurrogate, isLowSurrogate, between in *;
  repeat match goal with
    | H : _ && _ = true |- _ => apply andb_true_iff in H; destruct H
    | H : _ || _ = true |- _ => apply orb_true_iff in H; destruct H
    | H : (_ <=? _) = true |- _ => apply Z.leb_le in H
    | H : (_ =? _) = true |- _ => apply Z.eqb_eq in H
    end.

Ltac decide_ltb :=
  repeat match goal with
    | |- context [?a <? ?b] =>
        destruct (Z.ltb_spec a b); [try (exfalso; Z.div_mod_to_equations; lia) |
                                    try (exfalso; Z.div_mod_to_equations; lia)]
    | |- context [?a <=? ?b] =>
        destruct (Z.leb_spec a b); [try (exfalso; Z.div_mod_to_equations; lia) |
                                    try (exfalso; Z.div_mod_to_equations; lia)]
    end.

Lemma toUtf8_1 (b0 : Z) (s : QString) :
  between 0 127 b0 = true -> toUtf8 (b0 :: s) = b0 :: toUtf8 s.
Proof.
  intros H. bounds. cbn [toUtf8]. decide_ltb. reflexivity.
Qed.

Lemma toUtf8_2 (b0 b1 : Z) (s : QString) :
  lead2 b0 = true -> cont b1 = true ->
  toUtf8 (((b0 - 192) * 64 + (b1 - 128)) :: s) = b0 :: b1 :: toUtf8 s.
Proof.
  intros H0 H1. bounds. cbn [toUtf8]. decide_ltb.
  f_equal; [|f_equal]; Z.div_mod_to_equations; lia.
Qed.

Lemma toUtf8_3 (b0 b1 b2 : Z) (s : QString) :
  lead3 b0 b1 = true -> cont b2 = true ->
  toUtf8 (((b0 - 224) * 4096 + (b1 - 128) * 64 + (b2 - 128)) :: s)
  = b0 :: b1 :: b2 :: toUtf8 s.
Proof.
  intros H0 H2. cbn [toUtf8]. unfold isHighSurrogate, isLowSurrogate.
  bounds; subst; unfold between; decide_ltb; cbn [andb];
    (f_equal; [|f_equal; [|f_equal]]); Z.div_mod_to_equations; lia.
Qed.

Lemma toUtf8_4 (b0 b1 b2 b3 : Z) (s : QString) :
  lead4 b0 b1 = true -> cont b2 = true -> cont b3 = true ->
  let cp := (b0 - 240) * 262144 + (b1 - 128) * 4096 + (b2 - 128) * 64 + (b3 - 128) in
  toUtf8 ((55296 + (cp - 65536) / 1024) :: (56320 + (cp - 65536) mod 1024) :: s)
  = b0 :: b1 :: b2 :: b3 :: toUtf8 s.
Proof.
  intros H0 H2 H3 cp.
  assert (Hcp : 65536 <= cp < 1114112) by (subst cp; bounds; lia).
  assert (Hb : 240 + cp / 262144 = b0 /\ 128 + (cp / 4096) mod 64 = b1
               /\ 128 + (cp / 64) mod 64 = b2 /\ 128 + cp mod 64 = b3).
  { subst cp. bounds; repeat split; Z.div_mod_to_equations; lia. }
  clearbody cp. clear H0 H2 H3.
  set (hi := 55296 + (cp - 65536) / 1024).
  set (lo := 56320 + (cp - 65536) mod 1024).
  assert (Hhi : 55296 <= hi <= 56319) by (subst hi; Z.div_mod_to_equations; lia).
  assert (Hlo : 56320 <= lo <= 57343) by (subst lo; Z.div_mod_to_equations; lia).
  assert (Hcp' : 65536 + (hi - 55296) * 1024 + (lo - 56320) = cp)
    by (subst hi lo; Z.div_mod_to_equations; lia).
  clearbody hi lo.
  cbn [toUtf8]. unfold isHighSurrogate, isLowSurrogate, between.
  decide_ltb. cbn [andb]. rewrite Hcp'.
  destruct Hb as (-> & -> & -> & ->). reflexivity.
Qed.

Lemma lead3_range (b0 b1 : Z) : lead3 b0 b1 = true -> between 224 239 b0 = true.
Proof.
  intros H. unfold between. apply andb_true_iff. rewrite !Z.leb_le.
  bounds; lia.
Qed.

Lemma utf8_roundtrip_aux (n : nat) :
  forall b : QByteArray,
  (length b <= n)%nat -> validUtf8 b = true -> toUtf8 (utf8Decode b) = b.
Proof.
  induction n as [|n IH]; intros b Hn Hv.
  { destruct b; [reflexivity | cbn in Hn; lia]. }
  destruct b as [|b0 r0]; [reflexivity|].
  cbn [validUtf8 utf8Decode] in *.
  destruct (between 0 127 b0) eqn:E1.
  { rewrite (toUtf8_1 _ _ E1), (IH r0); [reflexivity | cbn in Hn; lia | exact Hv]. }
  destruct r0 as [|b1 r1]; [discriminate Hv|].
  destruct (lead2 b0) eqn:E2.
  { apply andb_true_iff in Hv. destruct Hv as [Hc1 Hv]. rewrite Hc1. cbn [andb].
    rewrite (toUtf8_2 _ _ _ E2 Hc1), (IH r1); [reflexivity | cbn in Hn; lia | exact Hv]. }
  cbn [andb].
  destruct r1 as [|b2 r2]; [discriminate Hv|].
  destruct (between 224 239 b0) eqn:E3.
  { apply andb_true_iff in Hv. destruct Hv as [Hv Hv2].
    apply andb_true_iff in Hv. destruct Hv as [Hl3 Hc2].
    rewrite Hl3, Hc2. cbn [andb].
    rewrite (toUtf8_3 _ _ _ _ Hl3 Hc2), (IH r2);
      [reflexivity | cbn in Hn; lia | exact Hv2]. }
  assert (Hl3 : lead3 b0 b1 = false).
  { destruct (lead3 b0 b1) eqn:E; [|reflexivity].
    apply lead3_range in E. congruence. }
  rewrite Hl3. cbn [andb].
  destruct r2 as [|b3 r3]; [discriminate Hv|].
  apply andb_true_iff in Hv. destruct Hv as [Hv Hv3].
  apply andb_true_iff in Hv. destruct Hv as [Hv Hc3].
  apply andb_true_iff in Hv. destruct Hv as [Hl4 Hc2].
  rewrite Hl4, Hc2, Hc3. cbn [andb].
  rewrite (toUtf8_4 _ _ _ _ _ Hl4 Hc2 Hc3), (IH r3);
    [reflexivity | cbn in Hn; lia | exact Hv3].
Qed.

(** Decoding well-formed UTF-8 and encoding it again gives the bytes back. *)
Lemma utf8_roundtrip (b : QByteArray) :
  validUtf8 b = true -> toUtf8 (utf8Decode b) = b.
Proof. apply (utf8_roundtrip_aux (length b)). lia. Qed.

Lemma untilNul_id (b : QByteArray) : ~ In 0 b -> untilNul b = b.
Proof.
  induction b as [|x b IH]; intros H; [reflexivity|].
  cbn [untilNul]. destruct (Z.eqb_spec x 0) as [E | E].
  - contradiction H. now left.
  - rewrite IH; [reflexivity|]. intros Hin. apply H. now right.
Qed.

Lemma skipBom_id (b : QByteArray) : hasBom b = false -> skipBom b = b.
Proof. unfold skipBom. now intros ->. Qed.

(** Without NUL byte and byte order mark, [fromUtf8] decodes all bytes. *)
Lemma fromUtf8_plain (b : QByteArray) :
  ~ In 0 b -> hasBom b = false -> fromUtf8 b = utf8Decode b.
Proof.
  intros H0 Hb. unfold fromUtf8. now rewrite (untilNul_id b H0), (skipBom_id b Hb).
Qed.

End Utf8.




(** * Further properties of the code *)

(** ** [append]: what it changes and what it reports *)

Section AppendLines.

Variable timestamp : QString.
Variable addTimestamp : bool.

Lemma sameRest_refl (c : Console) : sameRest c c.
Proof. repeat split. Qed.

Lemma sameRest_trans (c1 c2 c3 : Console) :
  sameRest c1 c2 -> sameRest c2 c3 -> sameRest c1 c3.
Proof.
  unfold sameRest. intros H1 H2.
  destruct H1 as (?&?&?&?&?&?&?&?&?), H2 as (?&?&?&?&?&?&?&?&?).
  repeat split; congruence.
Qed.

(** One round of the loop, seen on the lines alone; the ghost entries need
    not match the lines here. *)
Lemma appendChar_lines (ch : QChar) (c : Console) (pre : QStringList) (l : QString) :
  m_lines c = pre ++ [l] ->
  m_lines (appendChar timestamp addTimestamp c ch)
  = pre ++ (if isBreak ch
            then [(if m_timestampAdded c then l else l ++ timestamp); []]
            else [(if m_timestampAdded c then l else l ++ timestamp) ++ [ch]])
  /\ m_timestampAdded (appendChar timestamp addTimestamp c ch) = negb (isBreak ch)
  /\ sameRest c (appendChar timestamp addTimestamp c ch).
Proof.
  intros Hl. destruct c as [dm le disp hi e a st ta ls buf his gs].
  cbn in Hl. subst ls.
  unfold appendChar, replaceLastLine, noteStamp, appendEmptyLine, lineCount, isBreak.
  destruct ta, addTimestamp;
    cbn [negb m_timestampAdded m_lines stamps set_lines set_stamps set_timestampAdded
         m_dataMode m_lineEnding m_displayMode m_historyItem m_echo m_autoscroll
         m_showTimestamp m_dataBuffer m_historyItems];
    rewrite ?last_last, ?count_snoc_pred, ?replaceAt_snoc;
    destruct ((ch =? LF) || (ch =? CR));
    cbn [negb m_timestampAdded m_lines stamps set_lines set_stamps set_timestampAdded
         m_dataMode m_lineEnding m_displayMode m_historyItem m_echo m_autoscroll
         m_showTimestamp m_dataBuffer m_historyItems];
    rewrite ?last_last, ?count_snoc_pred, ?replaceAt_snoc, <- ?app_assoc;
    repeat split.
Qed.

Lemma appendChars_sameRest (data : QString) :
  forall c : Console,
  m_lines c <> [] ->
  sameRest c (fold_left (appendChar timestamp addTimestamp) data c)
  /\ m_lines (fold_left (appendChar timestamp addTimestamp) data c) <> [].
Proof.
  induction data as [|ch data IH]; intros c Hne.
  - split; [apply sameRest_refl | assumption].
  - cbn [fold_left].
    destruct (snoc_cases (m_lines c)) as [E | (pre & l & Hl)]; [contradiction|].
    destruct (appendChar_lines ch c pre l Hl) as (H1 & _ & H3).
    destruct (IH (appendChar timestamp addTimestamp c ch)) as [H4 H5].
    { rewrite H1. destruct (isBreak ch); intros E; destruct (app_eq_nil _ _ E); discriminate. }
    split; [exact (sameRest_trans _ _ _ H3 H4) | exact H5].
Qed.

End AppendLines.

Lemma appendEmptyLine_sameRest (c : Console) : sameRest c (appendEmptyLine c).
Proof. repeat split. Qed.

Lemma append_sameRest (now string : QString) (addTimestamp : bool) (c : Console) :
  sameRest c (fst (append now string addTimestamp c)).
Proof.
  destruct string as [|ch s]; [apply sameRest_refl|].
  unfold append. cbn [fst].
  set (c1 := if lineCount c =? 0 then appendEmptyLine c else c).
  assert (H1 : sameRest c c1 /\ m_lines c1 <> []).
  { subst c1. unfold lineCount, count.
    destruct (m_lines c) as [|x ls] eqn:El.
    - cbn. split; [apply appendEmptyLine_sameRest|].
      unfold appendEmptyLine. cbn. rewrite El. discriminate.
    - cbn [length]. replace (Z.of_nat (S (length ls)) =? 0) with false.
      + split; [apply sameRest_refl | rewrite El; discriminate].
      + symmetry. apply Z.eqb_neq. lia. }
  destruct H1 as [H1 H2].
  eapply sameRest_trans; [exact H1|].
  now apply appendChars_sameRest.
Qed.

(** X1: [append] changes the scrollback and the timestamp flag only: the
    data mode, line ending, display mode, echo, autoscroll and timestamp
    settings, the command history with its cursor, and the staging buffer
    are the same after the call, whatever the text. *)
Theorem X1_append_keeps_settings_and_history (now string : QString)
    (addTimestamp : bool) (c : Console) :
  sameRest c (fst (append now string addTimestamp c)).
Proof. apply append_sameRest. Qed.

Section AppendReport.

Variable timestamp : QString.
Variable addTimestamp : bool.

(** The loop of [append] keeps the lines before the open one and adds one
    line per line break. *)
Lemma appendChars_lines (data : QString) :
  forall (c : Console) (pre : QStringList) (l : QString),
  m_lines c = pre ++ [l] ->
  exists (closed : QStringList) (open : QString),
    m_lines (fold_left (appendChar timestamp addTimestamp) data c)
    = pre ++ closed ++ [open]
    /\ length closed = nBreaks data.
Proof.
  induction data as [|ch data IH]; intros c pre l Hl.
  - exists [], l. split; [exact Hl | reflexivity].
  - cbn [fold_left].
    destruct (appendChar_lines timestamp addTimestamp ch c pre l Hl) as (H1 & _ & _).
    unfold nBreaks. cbn [filter].
    destruct (isBreak ch).
    + set (l1 := if m_timestampAdded c then l else l ++ timestamp) in *.
      destruct (IH (appendChar timestamp addTimestamp c ch) (pre ++ [l1]) [])
        as (closed & open & H2 & H3).
      { rewrite H1, <- app_assoc. reflexivity. }
      exists (l1 :: closed), open. split.
      * rewrite H2, <- app_assoc. reflexivity.
      * cbn [length]. now rewrite H3.
    + destruct (IH (appendChar timestamp addTimestamp c ch) pre _ H1)
        as (closed & open & H2 & H3).
      exists closed, open. split; assumption.
Qed.

End AppendReport.

Lemma lineReceived_range (closed pre : QStringList) (l open : QString) :
  map (fun i => lineReceived (at_ (pre ++ closed ++ [open]) (i - 1)))
      (range (count (pre ++ [l])) (count (pre ++ closed ++ [open])))
  = map lineReceived closed.
Proof.
  unfold range, count. rewrite !length_app. cbn [length].
  replace (Z.to_nat (Z.of_nat (length pre + 1))) with (S (length pre)) by lia.
  replace (Z.to_nat (Z.of_nat (length pre + (length closed + 1))
                     - Z.of_nat (length pre + 1)))
    with (length closed) by lia.
  rewrite map_map.
  revert pre. induction closed as [|a closed IH]; intros pre; [reflexivity|].
  cbn [length seq map]. f_equal.
  - unfold at_. replace (Z.to_nat (Z.of_nat (S (length pre)) - 1)) with (length pre) by lia.
    rewrite app_nth2 by lia. rewrite Nat.sub_diag. reflexivity.
  - specialize (IH (pre ++ [a])).
    rewrite length_app in IH. cbn [length] in IH.
    replace (length pre + 1)%nat with (S (length pre)) in IH by lia.
    rewrite <- app_assoc in IH. exact IH.
Qed.

(** X2: what [append] reports.  For non-empty text, with [data] the text
    after "\r\n" became "\n": the closed lines of before stay as they are,
    one line is closed per line break of [data], and the signals are one
    [lineReceived] for each newly closed line, in order and with its final
    text, then [stringReceived(data)] exactly when no line was closed, then
    [dataReceived]. *)
Theorem X2_append_reports_closed_lines (now string : QString)
    (addTimestamp : bool) (c : Console) :
  string <> [] ->
  exists closed : QStringList,
    closedLines (fst (append now string addTimestamp c)) = closedLines c ++ closed
    /\ length closed = nBreaks (replace [CR; LF] [LF] string)
    /\ lineCount (fst (append now string addTimestamp c))
       = Z.max 1 (lineCount c) + Z.of_nat (length closed)
    /\ snd (append now string addTimestamp c)
       = map lineReceived closed
         ++ match closed with
            | [] => [stringReceived (replace [CR; LF] [LF] string)]
            | _ :: _ => []
            end
         ++ [dataReceived].
Proof.
  intros Hne. destruct string as [|ch s]; [congruence|].
  unfold append. cbn [fst snd].
  set (timestamp := if addTimestamp then now else []).
  set (data := replace [CR; LF] [LF] (ch :: s)).
  set (c1 := if lineCount c =? 0 then appendEmptyLine c else c).
  assert (H1 : exists pre l, m_lines c1 = pre ++ [l] /\ closedLines c = pre
                             /\ Z.max 1 (lineCount c) = count (pre ++ [l])).
  { subst c1. unfold lineCount, closedLines.
    destruct (snoc_cases (m_lines c)) as [E | (pre & l & E)].
    - rewrite E. cbn. exists [], []. unfold appendEmptyLine. cbn. rewrite E.
      repeat split.
    - rewrite E. unfold count at 1. rewrite length_app. cbn [length].
      replace (Z.of_nat (length pre + 1) =? 0) with false
        by (symmetry; apply Z.eqb_neq; lia).
      exists pre, l. rewrite removelast_last. repeat split; [assumption|].
      unfold count. rewrite length_app. cbn [length]. lia. }
  destruct H1 as (pre & l & Hl & Hclosed & Hmax).
  destruct (appendChars_lines timestamp addTimestamp data c1 pre l Hl)
    as (closed & open & H2 & H3).
  exists closed. unfold closedLines, lineCount in *.
  rewrite H2, Hl, Hclosed, Hmax.
  split; [|split; [assumption | split]].
  - now rewrite app_assoc, removelast_last.
  - unfold count. rewrite !length_app. cbn [length]. lia.
  - rewrite (lineReceived_range closed pre l open). f_equal. f_equal.
    unfold count. rewrite !length_app. cbn [length].
    destruct closed as [|x closed].
    + cbn. now rewrite Z.eqb_refl.
    + cbn [length].
      replace (Z.of_nat (length pre + (S (length closed) + 1)) =? Z.of_nat (length pre + 1))
        with false by (symmetry; apply Z.eqb_neq; lia).
      reflexivity.
Qed.

(** "hello", a line feed, "world" on a new console: one line is closed. *)
Lemma X2_append_reports_closed_lines_witness :
  helloWorld <> []
  /\ exists closed : QStringList,
       closedLines (fst (append T_ helloWorld true Console_new))
       = closedLines Console_new ++ closed
       /\ length closed = nBreaks (replace [CR; LF] [LF] helloWorld)
       /\ lineCount (fst (append T_ helloWorld true Console_new))
          = Z.max 1 (lineCount Console_new) + Z.of_nat (length closed)
       /\ snd (append T_ helloWorld true Console_new)
          = map lineReceived closed
            ++ match closed with
               | [] => [stringReceived (replace [CR; LF] [LF] helloWorld)]
               | _ :: _ => []
               end
            ++ [dataReceived].
Proof.
  assert (H : helloWorld <> []) by discriminate.
  split; [exact H|].
  exact (X2_append_reports_closed_lines T_ helloWorld true Console_new H).
Defined.

(** ** The text of the scrollback *)

Section JoinLines.

Lemma joinLines_cons (l : QString) (rest : QStringList) :
  rest <> [] -> joinLines (l :: rest) = l ++ LF :: joinLines rest.
Proof. destruct rest; [congruence | reflexivity]. Qed.

Lemma joinLines_last_app (pre : QStringList) (l x : QString) :
  joinLines (pre ++ [l ++ x]) = joinLines (pre ++ [l]) ++ x.
Proof.
  induction pre as [|a pre IH]; [reflexivity|].
  cbn [app]. rewrite !joinLines_cons, IH.
  - rewrite <- app_assoc. reflexivity.
  - intros E; destruct (app_eq_nil _ _ E); discriminate.
  - intros E; destruct (app_eq_nil _ _ E); discriminate.
Qed.

Lemma joinLines_snoc (pre : QStringList) (l x : QString) :
  joinLines ((pre ++ [l]) ++ [x]) = joinLines (pre ++ [l]) ++ LF :: x.
Proof.
  induction pre as [|a pre IH]; [reflexivity|].
  cbn [app]. rewrite !joinLines_cons, IH.
  - rewrite <- app_assoc. reflexivity.
  - intros E; destruct (app_eq_nil _ _ E); discriminate.
  - intros E; destruct (app_eq_nil _ _ E). destruct (app_eq_nil _ _ H). discriminate.
Qed.

Lemma appendChars_joinLines (data : QString) :
  forall (c : Console) (pre : QStringList) (l : QString),
  m_lines c = pre ++ [l] ->
  joinLines (m_lines (fold_left (appendChar [] false) data c))
  = joinLines (pre ++ [l]) ++ map asLF data.
Proof.
  induction data as [|ch data IH]; intros c pre l Hl.
  - cbn. now rewrite Hl, app_nil_r.
  - cbn [fold_left map].
    destruct (appendChar_lines [] false ch c pre l Hl) as (H0 & _ & _).
    assert (H1 : m_lines (appendChar [] false c ch)
                 = pre ++ (if isBreak ch then [l; []] else [l ++ [ch]])).
    { rewrite H0. destruct (m_timestampAdded c); rewrite ?app_nil_r; reflexivity. }
    clear H0. unfold asLF at 1. destruct (isBreak ch).
    + rewrite (IH _ (pre ++ [l]) []).
      * rewrite joinLines_snoc, <- app_assoc. reflexivity.
      * rewrite H1, <- app_assoc. reflexivity.
    + rewrite (IH _ pre (l ++ [ch]) H1).
      rewrite joinLines_last_app, <- app_assoc. reflexivity.
Qed.

End JoinLines.

(** X3: without timestamps, [append] loses and adds no character.  The
    scrollback, read as one text with a line feed between two lines, grows by
    exactly the appended text after "\r\n" became "\n" and every remaining
    carriage return a line feed. *)
Theorem X3_append_without_timestamp_keeps_text (now string : QString) (c : Console) :
  joinLines (m_lines (fst (append now string false c)))
  = joinLines (m_lines c) ++ map asLF (replace [CR; LF] [LF] string).
Proof.
  destruct string as [|ch s].
  { cbn. now rewrite app_nil_r. }
  unfold append. cbn [fst].
  set (data := replace [CR; LF] [LF] (ch :: s)).
  unfold lineCount.
  destruct (snoc_cases (m_lines c)) as [E | (pre & l & E)].
  - rewrite E. cbn [count length Z.of_nat Z.eqb].
    rewrite (appendChars_joinLines data (appendEmptyLine c) [] []).
    + reflexivity.
    + unfold appendEmptyLine. cbn. now rewrite E.
  - replace (count (m_lines c) =? 0) with false.
    + rewrite (appendChars_joinLines data c pre l E). now rewrite E.
    + symmetry. apply Z.eqb_neq. rewrite E. unfold count. rewrite length_app. cbn. lia.
Qed.

(** ** Lines have no line breaks *)

Section BreakFree.

Variable timestamp : QString.
Variable addTimestamp : bool.
Hypothesis timestamp_breakFree : breakFree timestamp.

Lemma appendChar_breakFree (ch : QChar) (c : Console) :
  m_lines c <> [] ->
  Forall breakFree (m_lines c) ->
  Forall breakFree (m_lines (appendChar timestamp addTimestamp c ch))
  /\ m_lines (appendChar timestamp addTimestamp c ch) <> [].
Proof.
  intros Hne Hbf.
  destruct (snoc_cases (m_lines c)) as [E | (pre & l & Hl)]; [contradiction|].
  destruct (appendChar_lines timestamp addTimestamp ch c pre l Hl) as (H1 & _ & _).
  rewrite H1. rewrite Hl in Hbf.
  apply Forall_app in Hbf. destruct Hbf as [Hpre Hlast].
  inversion_clear Hlast as [|? ? Hl0 _].
  assert (Hl1 : breakFree (if m_timestampAdded c then l else l ++ timestamp)).
  { destruct (m_timestampAdded c); [assumption|]. apply Forall_app. now split. }
  split.
  - apply Forall_app. split; [assumption|].
    destruct (isBreak ch) eqn:Eb.
    + constructor; [assumption|]. constructor; constructor.
    + constructor; [|constructor]. apply Forall_app. split; [assumption|].
      constructor; [assumption | constructor].
  - destruct (isBreak ch); intros E; destruct (app_eq_nil _ _ E); discriminate.
Qed.

Lemma appendChars_breakFree (data : QString) :
  forall c : Console,
  m_lines c <> [] ->
  Forall breakFree (m_lines c) ->
  Forall breakFree (m_lines (fold_left (appendChar timestamp addTimestamp) data c)).
Proof.
  induction data as [|ch data IH]; intros c Hne Hbf; [assumption|].
  cbn [fold_left]. destruct (appendChar_breakFree ch c Hne Hbf) as [H1 H2].
  now apply IH.
Qed.

End BreakFree.

Lemma append_breakFree (now string : QString) (addTimestamp : bool) (c : Console) :
  (addTimestamp = true -> breakFree now) ->
  Forall breakFree (m_lines c) ->
  Forall breakFree (m_lines (fst (append now string addTimestamp c))).
Proof.
  intros Hnow Hbf. destruct string as [|ch s]; [assumption|].
  unfold append. cbn [fst].
  set (c1 := if lineCount c =? 0 then appendEmptyLine c else c).
  assert (H1 : m_lines c1 <> [] /\ Forall breakFree (m_lines c1)).
  { subst c1. unfold lineCount, count. destruct (m_lines c) as [|x ls] eqn:E.
    - cbn. unfold appendEmptyLine. cbn. rewrite E.
      split; [discriminate | repeat constructor].
    - cbn [length]. replace (Z.of_nat (S (length ls)) =? 0) with false
        by (symmetry; apply Z.eqb_neq; lia).
      rewrite E. split; [discriminate | assumption]. }
  destruct H1 as [H1 H2].
  apply appendChars_breakFree; try assumption.
  destruct addTimestamp; [now apply Hnow | constructor].
Qed.

Section CallEffects.

(** What a call does to the lines: nothing, or it removes them all, or it
    appends text to them, reading the time of the call. *)
Lemma call_lines (k : Call) (c c' : Console) (signals : list Signal) :
  call k c = Some (c', signals) ->
  m_lines c' = m_lines c
  \/ m_lines c' = []
  \/ exists now text addTimestamp c0,
       In now (nowOf k) /\ m_lines c0 = m_lines c
       /\ m_lines c' = m_lines (fst (append now text addTimestamp c0)).
Proof.
  intros Hcall.
  destruct k; cbn [call] in Hcall;
    try (apply some_pair_fst in Hcall; subst c').
  - right. right. exists now, string, addTimestamp, c. cbn. auto.
  - right. right.
    exists now, (dataToString c (m_dataBuffer c)), (m_showTimestamp c), c.
    unfold displayData.
    destruct (append now _ (m_showTimestamp c) c) as [c1 s1]. cbn. auto.
  - now left.
  - right. now left.
  - apply send_cases in Hcall.
    destruct Hcall as [[_ (Hl & _)] | (text & _ & ->)]; [now left|].
    right. right.
    exists now, text, (m_showTimestamp c), (fst (addToHistory data c)).
    cbn [nowOf In]. repeat split; auto.
  - left. unfold historyUp. now destruct (0 <? m_historyItem c).
  - left. unfold historyDown.
    now destruct (m_historyItem c <? count (m_historyItems c) - 1).
  - now left.
  - now left.
  - now left.
  - now left.
  - now left.
  - now left.
Qed.

End CallEffects.

(** X4: no line of the scrollback ever contains a carriage return or a line
    feed.  Starting on a console whose lines have none, after every sequence
    of calls that read times without line breaks, every line is free of
    line breaks: a line break in the text always ends the line. *)
Theorem X4_lines_have_no_line_breaks (ks : list Call) :
  forall (c c' : Console) (signals : list Signal),
  (forall k now, In k ks -> In now (nowOf k) -> breakFree now) ->
  Forall breakFree (m_lines c) ->
  calls ks c = Some (c', signals) ->
  Forall breakFree (m_lines c').
Proof.
  induction ks as [|k ks IH]; intros c c' signals Hnow Hbf Hcalls.
  - cbn in Hcalls. injection Hcalls as <- _. assumption.
  - cbn [calls] in Hcalls.
    destruct (call k c) as [[c1 s1]|] eqn:Ek; [|discriminate].
    destruct (calls ks c1) as [[c2 s2]|] eqn:Eks; [|discriminate].
    injection Hcalls as <- _.
    apply (IH c1 c2 s2); auto.
    + intros k' now Hin. apply Hnow. now right.
    + destruct (call_lines k c c1 s1 Ek)
        as [E | [E | (now & text & addTimestamp & c0 & Hin & E0 & E)]];
        rewrite E.
      * assumption.
      * constructor.
      * apply append_breakFree.
        -- intros _. apply (Hnow k now); [now left | assumption].
        -- now rewrite E0.
Qed.

(** An echoed command, then a received line, on a new console. *)
Lemma X4_lines_have_no_line_breaks_witness :
  exists (c' : Console) (signals : list Signal),
    calls echoThenInbound Console_new = Some (c', signals)
    /\ Forall breakFree (m_lines c').
Proof.
  destruct (calls echoThenInbound Console_new) as [[c' signals]|] eqn:E;
    [|vm_compute in E; discriminate E].
  exists c', signals. split; [reflexivity|].
  apply (X4_lines_have_no_line_breaks echoThenInbound Console_new c' signals).
  - intros k now Hk Hnow. cbn in Hk.
    destruct Hk as [<- | [<- | [<- | []]]]; cbn in Hnow; try contradiction;
      destruct Hnow as [<- | []]; repeat constructor.
  - constructor.
  - exact E.
Defined.

(** ** The staging buffer, again *)

Section Staging.

Lemma calls_app (ks1 ks2 : list Call) :
  forall c : Console,
  calls (ks1 ++ ks2) c
  = match calls ks1 c with
    | None => None
    | Some (c1, sig1) =>
        match calls ks2 c1 with
        | None => None
        | Some (c2, sig2) => Some (c2, sig1 ++ sig2)
        end
    end.
Proof.
  induction ks1 as [|k ks1 IH]; intros c.
  - cbn. destruct (calls ks2 c) as [[c2 s2]|]; reflexivity.
  - cbn [app calls]. destruct (call k c) as [[c1 s1]|]; [|reflexivity].
    rewrite IH. destruct (calls ks1 c1) as [[c2 s2]|]; [|reflexivity].
    destruct (calls ks2 c2) as [[c3 s3]|]; [|reflexivity].
    now rewrite app_assoc.
Qed.

Lemma calls_receiveAll (chunks : list QByteArray) :
  forall c : Console,
  calls (receiveAll chunks) c
  = Some (set_dataBuffer (m_dataBuffer c ++ concat chunks) c, []).
Proof.
  induction chunks as [|d chunks IH]; intros c.
  - cbn. rewrite app_nil_r. now destruct c.
  - cbn [receiveAll map calls call onDataReceived]. fold (receiveAll chunks).
    rewrite IH. cbn [concat app]. rewrite app_assoc. now destruct c.
Qed.

End Staging.

(** X5: the display does not depend on how the bytes were delivered.  Any
    number of [onDataReceived] calls followed by one [displayData] gives the
    same console and the same signals as a single [onDataReceived] with all
    the bytes, followed by [displayData]; the deliveries themselves emit no
    signal. *)
Theorem X5_display_independent_of_chunking (chunks : list QByteArray)
    (now : QString) (c : Console) :
  calls (receiveAll chunks ++ [CallDisplayData now]) c
  = calls [CallOnDataReceived (concat chunks); CallDisplayData now] c.
Proof.
  rewrite calls_app, calls_receiveAll. reflexivity.
Qed.

(** ** Hexadecimal text, again *)

(** X6: the hex dump of a concatenation is the concatenation of the hex
    dumps: what hexadecimal display shows for a run of bytes does not depend
    on where the run was cut. *)
Theorem X6_hex_dump_of_concatenation (a b : QByteArray) :
  is_bytes a -> is_bytes b ->
  hexadecimalStr (a ++ b) = hexadecimalStr a ++ hexadecimalStr b.
Proof.
  intros Ha Hb.
  rewrite (hexadecimalStr_render a Ha), (hexadecimalStr_render b Hb).
  rewrite (hexadecimalStr_render (a ++ b)).
  - apply flat_map_app.
  - apply Forall_app. now split.
Qed.

(** A cut right behind a byte 0x0A. *)
Lemma X6_hex_dump_of_concatenation_witness :
  is_bytes [65; 10] /\ is_bytes [13; 66]
  /\ hexadecimalStr ([65; 10] ++ [13; 66])
     = hexadecimalStr [65; 10] ++ hexadecimalStr [13; 66].
Proof.
  assert (Ha : is_bytes [65; 10]) by (repeat constructor; unfold is_byte; lia).
  assert (Hb : is_bytes [13; 66]) by (repeat constructor; unfold is_byte; lia).
  split; [exact Ha|]. split; [exact Hb|].
  exact (X6_hex_dump_of_concatenation [65; 10] [13; 66] Ha Hb).
Defined.

Section HexRoundTrip.

Lemma renderByte_plain (x : Z) :
  is_byte x -> x <> 10 -> x <> 13 ->
  filter (fun ch => negb (ch =? SPACE)) (renderByte x)
  = [hexDigit (x / 16); hexDigit (x mod 16)].
Proof.
  intros Hx H10 H13. destruct (byte_nibbles x Hx) as (Hh & Hl & _).
  destruct (hexDigit_cases _ Hh) as (H1 & _).
  destruct (hexDigit_cases _ Hl) as (H2 & _).
  unfold renderByte.
  replace (x =? 10) with false by (symmetry; now apply Z.eqb_neq).
  replace (x =? 13) with false by (symmetry; now apply Z.eqb_neq).
  cbn [app filter]. unfold SPACE.
  replace (hexDigit (x / 16) =? 32) with false by (symmetry; apply Z.eqb_neq; lia).
  replace (hexDigit (x mod 16) =? 32) with false by (symmetry; apply Z.eqb_neq; lia).
  reflexivity.
Qed.

Lemma render_plain_strip (data : QByteArray) :
  is_bytes data -> ~ In 10 data -> ~ In 13 data ->
  filter (fun ch => negb (ch =? SPACE)) (flat_map renderByte data) = toHex data.
Proof.
  induction 1 as [|x data Hx Hdata IH]; intros H10 H13; [reflexivity|].
  cbn [flat_map].
  transitivity ([hexDigit (x / 16); hexDigit (x mod 16)] ++ toHex data);
    [|reflexivity].
  rewrite filter_app. f_equal.
  - apply (renderByte_plain x Hx); intros E; [apply H10 | apply H13]; now left.
  - apply IH; intros Hin; [apply H10 | apply H13]; now right.
Qed.

Lemma hexPairs_is_bytes (n : nat) :
  forall (s : QString) (bytes : QByteArray),
  (length s <= n)%nat ->
  hexPairs s = Some bytes ->
  is_bytes bytes /\ (2 * length bytes = length s)%nat.
Proof.
  induction n as [|n IH]; intros s bytes Hn Hp.
  - destruct s; [|cbn in Hn; lia]. injection Hp as <-. split; [constructor | reflexivity].
  - destruct s as [|c1 [|c2 rest]].
    + injection Hp as <-. split; [constructor | reflexivity].
    + discriminate Hp.
    + cbn [hexPairs] in Hp.
      destruct (hexPairs rest) as [array|] eqn:E; [|discriminate].
      injection Hp as <-.
      destruct (IH rest array) as [H1 H2]; [cbn in Hn; lia | exact E |].
      split.
      * constructor; [|assumption]. unfold is_byte.
        apply Z.mod_pos_bound. lia.
      * cbn [length]. lia.
Qed.

End HexRoundTrip.

(** X7: what hexadecimal display shows can be sent back in hexadecimal data
    mode.  For bytes without 0x0A and 0x0D, [hexToBytes] applied to the text
    of [hexadecimalStr] gives the bytes again. *)
Theorem X7_hexToBytes_reads_hex_dump (b : QByteArray) :
  is_bytes b -> ~ In 10 b -> ~ In 13 b ->
  hexToBytes (hexadecimalStr b) = Some b.
Proof.
  intros Hb H10 H13. unfold hexToBytes.
  rewrite replace_space, (hexadecimalStr_render b Hb), (render_plain_strip b Hb H10 H13).
  apply (hexPairs_parse (length (toHex b))); [lia|].
  now apply parseHexPairs_toHex.
Qed.

(** "Hi!" and the bytes 0x00, 0xA0, 0xFF. *)
Lemma X7_hexToBytes_reads_hex_dump_witness :
  is_bytes [72; 105; 33; 0; 160; 255]
  /\ hexToBytes (hexadecimalStr [72; 105; 33; 0; 160; 255])
     = Some [72; 105; 33; 0; 160; 255].
Proof.
  assert (Hb : is_bytes [72; 105; 33; 0; 160; 255])
    by (repeat constructor; unfold is_byte; lia).
  split; [exact Hb|].
  apply (X7_hexToBytes_reads_hex_dump [72; 105; 33; 0; 160; 255] Hb);
    cbn; intuition lia.
Defined.

(** X8: [hexToBytes] ignores spaces wherever they are: two texts with the
    same characters other than spaces give the same result. *)
Theorem X8_hexToBytes_ignores_spaces (text1 text2 : QString) :
  filter (fun ch => negb (ch =? SPACE)) text1
  = filter (fun ch => negb (ch =? SPACE)) text2 ->
  hexToBytes text1 = hexToBytes text2.
Proof.
  intros H. unfold hexToBytes. rewrite !replace_space. now rewrite H.
Qed.

(** "68 65 6c" and "6865 6 c". *)
Lemma X8_hexToBytes_ignores_spaces_witness :
  hexToBytes (qstr "68 65 6c") = hexToBytes (qstr "6865 6 c")
  /\ hexToBytes (qstr "6865 6 c") = Some [104; 101; 108].
Proof.
  split; [|reflexivity].
  apply (X8_hexToBytes_ignores_spaces (qstr "68 65 6c") (qstr "6865 6 c")).
  reflexivity.
Defined.

(** X9: whatever the text, the bytes that [hexToBytes] returns are in the
    range of a byte, 0 to 255, and there is one byte for every two characters
    other than spaces. *)
Theorem X9_hexToBytes_yields_bytes (text : QString) (bytes : QByteArray) :
  hexToBytes text = Some bytes ->
  is_bytes bytes
  /\ length (filter (fun ch => negb (ch =? SPACE)) text) = (2 * length bytes)%nat.
Proof.
  unfold hexToBytes. rewrite replace_space. intros H.
  destruct (hexPairs_is_bytes _ _ _ (le_n _) H) as [H1 H2].
  split; [exact H1 | now rewrite H2].
Qed.

(** Two groups, the second one not a number. *)
Lemma X9_hexToBytes_yields_bytes_witness :
  hexToBytes (qstr "7f zz") = Some [127; 0]
  /\ is_bytes [127; 0]
  /\ length (filter (fun ch => negb (ch =? SPACE)) (qstr "7f zz"))
     = (2 * length [127; 0])%nat.
Proof.
  split; [reflexivity|].
  exact (X9_hexToBytes_yields_bytes (qstr "7f zz") [127; 0] eq_refl).
Defined.

(** ** Plain text, again *)

Section Utf8Fallback.

Ltac ranges :=
  unfold lead2, lead3, lead4, cont, between in *;
  repeat match goal with
    | H : _ && _ = true |- _ => apply andb_true_iff in H; destruct H
    | H : _ || _ = true |- _ => apply orb_true_iff in H; destruct H
    | H : _ && _ = false |- _ => apply andb_false_iff in H; destruct H
    | H : (_ <=? _) = true |- _ => apply Z.leb_le in H
    | H : (_ <=? _) = false |- _ => apply Z.leb_gt in H
    | H : (_ =? _) = true |- _ => apply Z.eqb_eq in H
    end.

Lemma lead2_excludes (b0 b1 : Z) :
  lead2 b0 = true -> lead3 b0 b1 = false /\ lead4 b0 b1 = false.
Proof.
  intros H.
  split; match goal with |- ?x = false => destruct x eqn:E; [|reflexivity] end;
    exfalso; ranges; lia.
Qed.

Lemma lead4_excludes (b0 b1 : Z) :
  between 224 239 b0 = true -> lead4 b0 b1 = false.
Proof.
  intros H. destruct (lead4 b0 b1) eqn:E; [|reflexivity].
  exfalso; ranges; lia.
Qed.

Lemma lead3_needs_range (b0 b1 : Z) :
  between 224 239 b0 = false -> lead3 b0 b1 = false.
Proof.
  intros H. destruct (lead3 b0 b1) eqn:E; [|reflexivity].
  apply lead3_range in E. congruence.
Qed.

Lemma lead4_not_lead2 (b0 b1 : Z) :
  lead4 b0 b1 = true -> lead2 b0 = false.
Proof.
  intros H. destruct (lead2 b0) eqn:E; [|reflexivity].
  destruct (lead2_excludes b0 b1 E). congruence.
Qed.

(** One step of the decoder: it either consumes a well-formed group, which
    encodes back to itself, or it is at an ill-formed byte and emits U+FFFD,
    which encodes to three bytes. *)
Lemma utf8_step (b0 : Z) (r0 : QByteArray) :
  (exists grp rest,
      b0 :: r0 = grp ++ rest /\ grp <> []
      /\ validUtf8 (b0 :: r0) = validUtf8 rest
      /\ toUtf8 (utf8Decode (b0 :: r0)) = grp ++ toUtf8 (utf8Decode rest))
  \/ (validUtf8 (b0 :: r0) = false
      /\ toUtf8 (utf8Decode (b0 :: r0)) = 239 :: 191 :: 189 :: toUtf8 (utf8Decode r0)).
Proof.
  cbn [validUtf8 utf8Decode].
  destruct (between 0 127 b0) eqn:E1.
  { left. exists [b0], r0. rewrite (toUtf8_1 _ _ E1).
    repeat split. discriminate. }
  destruct r0 as [|b1 r1].
  { right. split; reflexivity. }
  destruct (lead2 b0) eqn:E2.
  { destruct (lead2_excludes b0 b1 E2) as [N3 N4].
    destruct (cont b1) eqn:Ec1; cbn [andb].
    - left. exists [b0; b1], r1. rewrite (toUtf8_2 _ _ _ E2 Ec1).
      repeat split. discriminate.
    - right. split; [reflexivity|].
      rewrite N3, N4. cbn [andb].
      destruct r1 as [|b2 [|b3 r3]]; reflexivity. }
  cbn [andb].
  destruct r1 as [|b2 r2].
  { right. split; reflexivity. }
  destruct (between 224 239 b0) eqn:E3.
  { rewrite (lead4_excludes b0 b1 E3). cbn [andb].
    destruct (lead3 b0 b1 && cont b2) eqn:E.
    - apply andb_true_iff in E. destruct E as [El3 Ec2].
      left. exists [b0; b1; b2], r2. rewrite (toUtf8_3 _ _ _ _ El3 Ec2).
      repeat split. discriminate.
    - right. split; [reflexivity|].
      destruct r2 as [|b3 r3]; reflexivity. }
  rewrite (lead3_needs_range b0 b1 E3). cbn [andb].
  destruct r2 as [|b3 r3].
  { right. split; reflexivity. }
  destruct (lead4 b0 b1 && cont b2 && cont b3) eqn:E.
  - apply andb_true_iff in E. destruct E as [E Ec3].
    apply andb_true_iff in E. destruct E as [El4 Ec2].
    left. exists [b0; b1; b2; b3], r3.
    rewrite (toUtf8_4 _ _ _ _ _ El4 Ec2 Ec3).
    repeat split. discriminate.
  - right. split; reflexivity.
Qed.

(** Encoding a decoded text never gives fewer bytes than were decoded. *)
Lemma utf8_length_aux (n : nat) :
  forall b : QByteArray,
  (length b <= n)%nat -> (length b <= length (toUtf8 (utf8Decode b)))%nat.
Proof.
  induction n as [|n IH]; intros b Hn.
  { destruct b; [cbn; lia | cbn in Hn; lia]. }
  destruct b as [|b0 r0]; [cbn; lia|].
  destruct (utf8_step b0 r0) as [(grp & rest & Hb & Hg & _ & Ht) | [_ Ht]].
  - rewrite Ht, Hb, !length_app.
    assert (Hr : (length rest <= n)%nat).
    { apply (f_equal (@length Z)) in Hb. rewrite length_app in Hb.
      destruct grp; [congruence|]. cbn in Hb, Hn. lia. }
    specialize (IH rest Hr). lia.
  - rewrite Ht. cbn [length] in *. specialize (IH r0 ltac:(lia)). lia.
Qed.

Lemma utf8_roundtrip_valid_aux (n : nat) :
  forall b : QByteArray,
  (length b <= n)%nat -> toUtf8 (utf8Decode b) = b -> validUtf8 b = true.
Proof.
  induction n as [|n IH]; intros b Hn Hr.
  { destruct b; [reflexivity | cbn in Hn; lia]. }
  destruct b as [|b0 r0]; [reflexivity|].
  destruct (utf8_step b0 r0) as [(grp & rest & Hb & Hg & Hv & Ht) | [_ Ht]].
  - rewrite Hv. apply IH.
    + apply (f_equal (@length Z)) in Hb. rewrite length_app in Hb.
      destruct grp; [congruence|]. cbn in Hb, Hn. lia.
    + rewrite Ht, Hb in Hr. now apply app_inv_head in Hr.
  - exfalso. rewrite Ht in Hr. injection Hr as _ Hr.
    pose proof (utf8_length_aux (length r0) r0 (le_n _)) as Hlen.
    rewrite <- Hr in Hlen at 1. cbn [length] in Hlen. lia.
Qed.

(** Every ill-formed byte makes the re-encoded text two bytes longer. *)
Lemma utf8_parity_aux (n : nat) :
  forall b : QByteArray,
  (length b <= n)%nat ->
  exists k : nat, length (toUtf8 (utf8Decode b)) = (length b + 2 * k)%nat.
Proof.
  induction n as [|n IH]; intros b Hn.
  { destruct b; [exists 0%nat; reflexivity | cbn in Hn; lia]. }
  destruct b as [|b0 r0]; [exists 0%nat; reflexivity|].
  destruct (utf8_step b0 r0) as [(grp & rest & Hb & Hg & _ & Ht) | [_ Ht]].
  - assert (Hr : (length rest <= n)%nat).
    { apply (f_equal (@length Z)) in Hb. rewrite length_app in Hb.
      destruct grp; [congruence|]. cbn in Hb, Hn. lia. }
    destruct (IH rest Hr) as [k Hk]. exists k.
    rewrite Ht, Hb, !length_app, Hk. lia.
  - destruct (IH r0) as [k Hk]; [cbn in Hn; lia|]. exists (S k).
    rewrite Ht. cbn [length]. rewrite Hk. lia.
Qed.

(** Re-encoding a decoded text puts no NUL byte where there was none. *)
Lemma utf8_no_nul_aux (n : nat) :
  forall b : QByteArray,
  (length b <= n)%nat -> ~ In 0 b -> ~ In 0 (toUtf8 (utf8Decode b)).
Proof.
  induction n as [|n IH]; intros b Hn H0.
  { destruct b; [intros [] | cbn in Hn; lia]. }
  destruct b as [|b0 r0]; [intros []|].
  destruct (utf8_step b0 r0) as [(grp & rest & Hb & Hg & _ & Ht) | [_ Ht]].
  - rewrite Ht. rewrite Hb in H0. intros Hin. apply in_app_or in Hin.
    destruct Hin as [Hin | Hin].
    + apply H0. apply in_or_app. now left.
    + revert Hin. apply IH.
      * apply (f_equal (@length Z)) in Hb. rewrite length_app in Hb.
        destruct grp; [congruence|]. cbn in Hb, Hn. lia.
      * intros Hin. apply H0. apply in_or_app. now right.
  - rewrite Ht. intros [E | [E | [E | Hin]]]; try discriminate.
    revert Hin. apply IH; [cbn in Hn; lia|].
    intros Hin. apply H0. now right.
Qed.

Lemma untilNul_no_nul (b : QByteArray) : ~ In 0 (untilNul b).
Proof.
  induction b as [|x b IH]; [intros []|].
  cbn [untilNul]. destruct (Z.eqb_spec x 0) as [E | E]; [intros []|].
  intros [Hx | Hin]; [congruence | contradiction].
Qed.

Lemma skipBom_no_nul (b : QByteArray) : ~ In 0 b -> ~ In 0 (skipBom b).
Proof.
  unfold skipBom. destruct (hasBom b); [|trivial].
  intros H Hin. apply H.
  rewrite <- (firstn_skipn 3 b). apply in_or_app. now right.
Qed.

Lemma noNul_spec (b : QByteArray) : noNul b = true <-> ~ In 0 b.
Proof.
  unfold noNul. induction b as [|x b IH]; cbn [forallb].
  - split; [intros _ [] | reflexivity].
  - rewrite andb_true_iff, IH, negb_true_iff, Z.eqb_neq. split.
    + intros [Hx Hb] [E | Hin]; [congruence | contradiction].
    + intros H. split; [intros E | intros Hin]; apply H; [left | right]; auto.
Qed.

Lemma hasBom_length (b : QByteArray) :
  hasBom b = true -> (length (skipn 3 b) + 3 = length b)%nat.
Proof.
  destruct b as [|b0 [|b1 [|b2 r]]]; try discriminate. intros _. cbn. lia.
Qed.

(** When the UTF-8 decoding of [b] encodes back to [b], then [b] has no NUL
    byte and no byte order mark, and it is well-formed. *)
Lemma fromUtf8_roundtrip_inv (b : QByteArray) :
  toUtf8 (fromUtf8 b) = b ->
  noNul b = true /\ hasBom b = false /\ validUtf8 b = true.
Proof.
  intros E.
  assert (H0 : ~ In 0 b).
  { rewrite <- E. unfold fromUtf8.
    apply (utf8_no_nul_aux (length (skipBom (untilNul b)))); [lia|].
    apply skipBom_no_nul, untilNul_no_nul. }
  assert (Hb : hasBom b = false).
  { destruct (hasBom b) eqn:Eb; [|reflexivity]. exfalso.
    unfold fromUtf8, skipBom in E. rewrite (untilNul_id b H0), Eb in E.
    destruct (utf8_parity_aux (length (skipn 3 b)) (skipn 3 b) (le_n _)) as [k Hk].
    rewrite E in Hk. pose proof (hasBom_length b Eb). lia. }
  split; [now apply noNul_spec|]. split; [exact Hb|].
  rewrite (fromUtf8_plain b H0 Hb) in E.
  exact (utf8_roundtrip_valid_aux (length b) b (le_n _) E).
Qed.

End Utf8Fallback.

(** X10: when [plainTextStr] decodes and when it falls back.  The bytes are
    decoded as UTF-8 exactly when they are well-formed UTF-8 with no byte
    order mark at the start and no NUL byte; every other sequence is shown
    with one character per byte, of the same value, up to the first NUL
    byte. *)
Theorem X10_plain_text_decodes_or_falls_back (b : QByteArray) :
  plainTextStr b
  = if validUtf8 b && negb (hasBom b) && noNul b
    then utf8Decode b
    else untilNul b.
Proof.
  unfold plainTextStr, fromLatin1.
  destruct (QByteArray_eq_dec (toUtf8 (fromUtf8 b)) b) as [E | E].
  - destruct (fromUtf8_roundtrip_inv b E) as (H0 & Hb & Hv).
    rewrite H0, Hb, Hv. cbn [andb negb].
    apply fromUtf8_plain; [now apply noNul_spec | exact Hb].
  - destruct (validUtf8 b && negb (hasBom b) && noNul b) eqn:Ec; [|reflexivity].
    exfalso. apply E.
    apply andb_true_iff in Ec. destruct Ec as [Ec H0].
    apply andb_true_iff in Ec. destruct Ec as [Hv Hb].
    apply negb_true_iff in Hb. apply noNul_spec in H0.
    rewrite (fromUtf8_plain b H0 Hb). now apply utf8_roundtrip.
Qed.

(** ** The command history, again *)

Section Recall.

Lemma historyUp_effect (c : Console) :
  m_historyItems (fst (historyUp c)) = m_historyItems c
  /\ m_historyItem (fst (historyUp c)) = Z.max 0 (m_historyItem c - 1) \/
  m_historyItems (fst (historyUp c)) = m_historyItems c
  /\ m_historyItem c < 0 /\ m_historyItem (fst (historyUp c)) = m_historyItem c.
Proof.
  unfold historyUp. destruct (0 <? m_historyItem c) eqn:E; cbn.
  - apply Z.ltb_lt in E. left. split; [reflexivity | lia].
  - apply Z.ltb_ge in E. destruct (Z.eq_dec (m_historyItem c) 0) as [E0 | E0].
    + left. split; [reflexivity | lia].
    + right. repeat split. lia.
Qed.

Lemma historyUps_items (n : nat) (c : Console) :
  m_historyItems (historyUps n c) = m_historyItems c.
Proof.
  induction n as [|n IH]; [reflexivity|].
  cbn [historyUps].
  destruct (historyUp_effect (historyUps n c)) as [[H _] | [H _]]; now rewrite H.
Qed.

Lemma historyUps_cursor (n : nat) (c : Console) :
  0 <= m_historyItem c ->
  m_historyItem (historyUps n c) = Z.max 0 (m_historyItem c - Z.of_nat n).
Proof.
  intros H0. induction n as [|n IH]; [cbn; lia|].
  cbn [historyUps].
  destruct (historyUp_effect (historyUps n c)) as [[_ H] | (_ & Hneg & _)].
  - rewrite H, IH. lia.
  - rewrite IH in Hneg. lia.
Qed.

Lemma addToHistory_last (command : QString) (c : Console) :
  m_historyItems (fst (addToHistory command c))
  = removeOld (m_historyItems c) ++ [command]
  /\ m_historyItem (fst (addToHistory command c))
     = count (removeOld (m_historyItems c) ++ [command]).
Proof. split; reflexivity. Qed.

End Recall.

(** X11: recalling sent commands.  Right after a command was registered the
    recall cursor is behind the history and [currentHistoryString] is empty;
    after [n] presses of Up, for [n] between 1 and the number of entries,
    [currentHistoryString] is the [n]-th most recent command; one press
    gives the command just registered. *)
Theorem X11_up_recalls_recent_commands (command : QString) (c : Console) (n : nat) :
  let c1 := fst (addToHistory command c) in
  (1 <= n <= length (m_historyItems c1))%nat ->
  currentHistoryString c1 = []
  /\ currentHistoryString (historyUps n c1)
     = nth (length (m_historyItems c1) - n) (m_historyItems c1) []
  /\ currentHistoryString (historyUps 1 c1) = command.
Proof.
  intros c1 Hn.
  destruct (addToHistory_last command c) as [Hitems Hcur].
  fold c1 in Hitems, Hcur. rewrite <- Hitems in Hcur.
  assert (H0 : 0 <= m_historyItem c1) by (rewrite Hcur; unfold count; lia).
  assert (Hup : forall k, (1 <= k <= length (m_historyItems c1))%nat ->
            currentHistoryString (historyUps k c1)
            = nth (length (m_historyItems c1) - k) (m_historyItems c1) []).
  { intros k Hk. unfold currentHistoryString.
    rewrite historyUps_items, (historyUps_cursor k c1 H0), Hcur. unfold count.
    replace (Z.max 0 (Z.of_nat (length (m_historyItems c1)) - Z.of_nat k))
      with (Z.of_nat (length (m_historyItems c1) - k)) by lia.
    replace (Z.of_nat (length (m_historyItems c1) - k)
             <? Z.of_nat (length (m_historyItems c1))) with true
      by (symmetry; apply Z.ltb_lt; lia).
    replace (0 <=? Z.of_nat (length (m_historyItems c1) - k)) with true
      by (symmetry; apply Z.leb_le; lia).
    cbn [andb]. unfold at_. now rewrite Nat2Z.id. }
  split; [|split].
  - unfold currentHistoryString. rewrite Hcur, Z.ltb_irrefl. reflexivity.
  - now apply Hup.
  - rewrite Hup by lia. rewrite Hitems, length_app. cbn [length].
    replace (length (removeOld (m_historyItems c)) + 1 - 1)%nat
      with (length (removeOld (m_historyItems c))) by lia.
    rewrite app_nth2 by lia. now rewrite Nat.sub_diag.
Qed.

(** Two commands on a new console; two presses of Up recall the first. *)
Lemma X11_up_recalls_recent_commands_witness :
  currentHistoryString
    (historyUps 2 (fst (addToHistory (qstr "second")
                          (fst (addToHistory (qstr "first") Console_new)))))
  = qstr "first".
Proof.
  destruct (X11_up_recalls_recent_commands (qstr "second")
              (fst (addToHistory (qstr "first") Console_new)) 2) as (_ & H & _).
  - cbn. lia.
  - rewrite H. reflexivity.
Defined.

Section Navigate.

Lemma navigate_items (keys : list bool) :
  forall c : Console, m_historyItems (navigate keys c) = m_historyItems c.
Proof.
  induction keys as [|up keys IH]; intros c; [reflexivity|].
  unfold navigate in *. cbn [fold_left]. rewrite IH.
  destruct up.
  - unfold historyUp. now destruct (0 <? m_historyItem c).
  - unfold historyDown. now destruct (m_historyItem c <? count (m_historyItems c) - 1).
Qed.

Lemma navigate_inside (keys : list bool) :
  forall c : Console,
  0 <= m_historyItem c < count (m_historyItems c) ->
  0 <= m_historyItem (navigate keys c) < count (m_historyItems c).
Proof.
  induction keys as [|up keys IH]; intros c Hc; [assumption|].
  unfold navigate in *. cbn [fold_left].
  destruct up.
  - unfold historyUp. destruct (0 <? m_historyItem c) eqn:E; cbn [fst].
    + apply Z.ltb_lt in E.
      specialize (IH (set_historyItem (m_historyItem c - 1) c)).
      cbn in IH. apply IH. lia.
    + now apply IH.
  - unfold historyDown.
    destruct (m_historyItem c <? count (m_historyItems c) - 1) eqn:E; cbn [fst].
    + apply Z.ltb_lt in E.
      specialize (IH (set_historyItem (m_historyItem c + 1) c)).
      cbn in IH. apply IH. lia.
    + now apply IH.
Qed.

End Navigate.

(** X12: once the recall cursor is on an entry of the history, no run of Up
    and Down presses takes it off the history: [currentHistoryString] stays
    one of the registered commands, and Down does not lead back to the empty
    position behind the newest entry. *)
Theorem X12_navigation_stays_on_history (keys : list bool) (c : Console) :
  0 <= m_historyItem c < count (m_historyItems c) ->
  0 <= m_historyItem (navigate keys c) < count (m_historyItems c)
  /\ In (currentHistoryString (navigate keys c)) (m_historyItems c).
Proof.
  intros Hc. pose proof (navigate_inside keys c Hc) as Hin.
  split; [exact Hin|].
  unfold currentHistoryString. rewrite navigate_items.
  replace (m_historyItem (navigate keys c) <? count (m_historyItems c)) with true
    by (symmetry; apply Z.ltb_lt; lia).
  replace (0 <=? m_historyItem (navigate keys c)) with true
    by (symmetry; apply Z.leb_le; lia).
  cbn [andb]. unfold at_. apply nth_In. unfold count in Hin. lia.
Qed.

(** One command, Up, then Down twice: the command stays selected. *)
Lemma X12_navigation_stays_on_history_witness :
  currentHistoryString
    (navigate [false; false]
       (historyUps 1 (fst (addToHistory (qstr "first") Console_new))))
  = qstr "first".
Proof.
  destruct (X12_navigation_stays_on_history [false; false]
              (historyUps 1 (fst (addToHistory (qstr "first") Console_new))))
    as [_ H].
  - cbn. lia.
  - cbn in H. destruct H as [H | []]. symmetry. exact H.
Defined.

(** ** [send] and the history across calls *)

Section SendEffects.

Lemma removeOld_length (items : QStringList) :
  (length (removeOld items) <= 100)%nat.
Proof.
  rewrite removeOld_keepLast. unfold keepLast. rewrite length_skipn. lia.
Qed.

Lemma addToHistory_inv (command : QString) (c : Console) :
  HistoryInv (fst (addToHistory command c)).
Proof.
  destruct (addToHistory_last command c) as [Hi Hc].
  unfold HistoryInv. rewrite Hc, Hi. unfold count. rewrite length_app. cbn [length].
  pose proof (removeOld_length (m_historyItems c)). lia.
Qed.

Lemma HistoryInv_sameRest (c c' : Console) :
  sameRest c c' -> HistoryInv c -> HistoryInv c'.
Proof.
  intros (_ & _ & _ & Hc & _ & _ & _ & _ & Hi) H.
  unfold HistoryInv in *. now rewrite Hc, Hi.
Qed.

(** [send] does nothing at all for empty data or without a connection;
    otherwise it registers the command first, and nothing that follows
    touches the history or the settings. *)
Lemma send_rest (dev : Device) (now data : QString) (c c' : Console)
    (signals : list Signal) :
  send dev now data c = Some (c', signals) ->
  (c' = c /\ signals = [] /\ (data = [] \/ connected dev = false))
  \/ (data <> [] /\ connected dev = true
      /\ sameRest (fst (addToHistory data c)) c'
      /\ hd_error signals = Some historyItemChanged).
Proof.
  unfold send.
  destruct data as [|ch s].
  { intros H. injection H as <- <-. left. auto. }
  destruct (connected dev); cbn [negb].
  2:{ intros H. injection H as <- <-. left. auto. }
  cbn [addToHistory].
  set (c0 := set_historyItem _ _).
  change (m_dataMode c0) with (m_dataMode c).
  change (m_lineEnding c0) with (m_lineEnding c).
  change (m_echo c0) with (m_echo c).
  change (m_showTimestamp c0) with (m_showTimestamp c).
  intros H. right. split; [discriminate|]. split; [reflexivity|].
  change (fst (set_historyItem (count (m_historyItems
            (set_historyItems (m_historyItems
               (set_historyItems (removeOld (m_historyItems c)) c) ++ [ch :: s])
               (set_historyItems (removeOld (m_historyItems c)) c))))
            (set_historyItems (m_historyItems
               (set_historyItems (removeOld (m_historyItems c)) c) ++ [ch :: s])
               (set_historyItems (removeOld (m_historyItems c)) c)),
          [historyItemChanged])) with c0.
  destruct (match m_dataMode c with
            | DataUTF8 => Some (toUtf8 (ch :: s))
            | DataHexadecimal => hexToBytes (ch :: s)
            end) as [bin|]; [|discriminate].
  destruct (0 <? writeData dev (bin ++ lineEndingBytes (m_lineEnding c))).
  2:{ injection H as <- <-. split; [apply sameRest_refl | reflexivity]. }
  destruct (m_echo c).
  2:{ injection H as <- <-. split; [apply sameRest_refl | reflexivity]. }
  destruct (append now (dataToString c0 (bin ++ lineEndingBytes (m_lineEnding c)))
              (m_showTimestamp c) c0) as [c1 sig2] eqn:Ea.
  injection H as <- <-. split; [|reflexivity].
  apply (sameRest_trans c0 c1).
  - replace c1 with (fst (append now (dataToString c0 (bin ++ lineEndingBytes (m_lineEnding c)))
                            (m_showTimestamp c) c0)) by now rewrite Ea.
    apply append_sameRest.
  - repeat split.
Qed.


Lemma call_history (k : Call) (c c' : Console) (signals : list Signal) :
  HistoryInv c -> call k c = Some (c', signals) -> HistoryInv c'.
Proof.
  intros Hinv Hcall.
  destruct k; cbn [call] in Hcall;
    try (apply some_pair_fst in Hcall; subst c').
  - apply (HistoryInv_sameRest c); [apply append_sameRest | assumption].
  - unfold displayData.
    destruct (append now _ (m_showTimestamp c) c) as [c1 s1] eqn:Ea.
    pose proof (append_sameRest now (dataToString c (m_dataBuffer c))
                  (m_showTimestamp c) c) as Hs.
    rewrite Ea in Hs. cbn [fst] in *.
    destruct Hs as (_ & _ & _ & Hc & _ & _ & _ & _ & Hi).
    unfold HistoryInv in *. cbn. now rewrite Hc, Hi.
  - exact Hinv.
  - exact Hinv.
  - apply send_rest in Hcall.
    destruct Hcall as [(-> & _) | (_ & _ & Hs & _)]; [assumption|].
    apply (HistoryInv_sameRest _ _ Hs). apply addToHistory_inv.
  - unfold historyUp, HistoryInv in *.
    destruct (0 <? m_historyItem c) eqn:E; cbn; [|assumption].
    apply Z.ltb_lt in E. lia.
  - unfold historyDown, HistoryInv in *.
    destruct (m_historyItem c <? count (m_historyItems c) - 1) eqn:E; cbn;
      [|assumption].
    apply Z.ltb_lt in E. lia.
  - exact Hinv.
  - exact Hinv.
  - exact Hinv.
  - exact Hinv.
  - exact Hinv.
  - exact Hinv.
Qed.

End SendEffects.

(** X13: the command history stays bounded and the recall cursor stays in
    range.  On a console with at most 101 history entries and the cursor
    between 0 and the number of entries, every sequence of calls leaves at
    most 101 entries and the cursor between 0 and the number of entries. *)
Theorem X13_history_bounded_across_calls (ks : list Call) :
  forall (c c' : Console) (signals : list Signal),
  HistoryInv c ->
  calls ks c = Some (c', signals) ->
  HistoryInv c'.
Proof.
  induction ks as [|k ks IH]; intros c c' signals Hinv Hcalls.
  - cbn in Hcalls. injection Hcalls as <- _. assumption.
  - cbn [calls] in Hcalls.
    destruct (call k c) as [[c1 s1]|] eqn:Ek; [|discriminate].
    destruct (calls ks c1) as [[c2 s2]|] eqn:Eks; [|discriminate].
    injection Hcalls as <- _.
    apply (IH c1 c2 s2); [|assumption].
    exact (call_history k c c1 s1 Hinv Ek).
Qed.

(** A new console; a command is sent, echoed, and recalled. *)
Lemma X13_history_bounded_across_calls_witness :
  exists (c' : Console) (signals : list Signal),
    calls (echoThenInbound ++ [CallHistoryUp; CallHistoryDown]) Console_new
    = Some (c', signals)
    /\ HistoryInv c'.
Proof.
  destruct (calls (echoThenInbound ++ [CallHistoryUp; CallHistoryDown]) Console_new)
    as [[c' signals]|] eqn:E; [|vm_compute in E; discriminate E].
  exists c', signals. split; [reflexivity|].
  apply (X13_history_bounded_across_calls
           (echoThenInbound ++ [CallHistoryUp; CallHistoryDown])
           Console_new c' signals); [|exact E].
  unfold HistoryInv. cbn. lia.
Defined.



(** ** Timestamps within one call *)

Section StampSegments.

Variable now : QString.

Lemma splitBreaks_not_nil (data : QString) : splitBreaks data <> [].
Proof.
  destruct data as [|ch data]; [discriminate|]. cbn.
  destruct (isBreak ch); [discriminate|].
  destruct (splitBreaks data); discriminate.
Qed.

Lemma splitBreaks_single (data segment : QString) :
  splitBreaks data = [segment] -> data = segment.
Proof.
  revert segment. induction data as [|ch data IH]; intros segment H.
  - now injection H as <-.
  - cbn [splitBreaks] in H. pose proof (splitBreaks_not_nil data) as Hn.
    destruct (isBreak ch).
    + injection H as _ H. contradiction.
    + destruct (splitBreaks data) as [|s0 rest] eqn:E; [contradiction|].
      injection H as <- ->. now rewrite (IH s0 eq_refl).
Qed.

Lemma stampSegments_fresh (data : QString) :
  data <> [] ->
  stampSegments now (splitBreaks data)
  = match splitBreaks data with
    | segment :: rest => (now ++ segment) :: stampSegments now rest
    | [] => []
    end.
Proof.
  intros Hne. destruct (splitBreaks data) as [|segment rest] eqn:E; [reflexivity|].
  destruct rest as [|s1 rest]; [|reflexivity].
  apply splitBreaks_single in E. subst segment.
  destruct data; [congruence | reflexivity].
Qed.

Lemma appendChars_stamp (data : QString) :
  forall (c : Console) (pre : QStringList) (l : QString),
  m_lines c = pre ++ [l] ->
  data <> [] ->
  m_lines (fold_left (appendChar now true) data c)
  = pre ++ match splitBreaks data with
           | segment :: rest =>
               ((if m_timestampAdded c then l else l ++ now) ++ segment)
                 :: stampSegments now rest
           | [] => []
           end.
Proof.
  induction data as [|ch data IH]; intros c pre l Hl Hne; [congruence|].
  cbn [fold_left splitBreaks].
  destruct (appendChar_lines now true ch c pre l Hl) as (H1 & H2 & _).
  set (l1 := if m_timestampAdded c then l else l ++ now) in *.
  destruct data as [|ch2 data].
  - cbn [fold_left splitBreaks]. rewrite H1.
    destruct (isBreak ch); [now rewrite app_nil_r | reflexivity].
  - assert (Hd : ch2 :: data <> []) by discriminate.
    destruct (isBreak ch) eqn:Eb.
    + rewrite (IH _ (pre ++ [l1]) []); [|rewrite H1, <- app_assoc; reflexivity | exact Hd].
      rewrite H2. cbn [negb]. rewrite app_nil_r, <- app_assoc. cbn [app].
      rewrite (stampSegments_fresh (ch2 :: data) Hd). reflexivity.
    + rewrite (IH _ pre (l1 ++ [ch]) H1 Hd).
      rewrite H2. cbn [negb].
      destruct (splitBreaks (ch2 :: data)) as [|segment rest] eqn:E.
      * now apply splitBreaks_not_nil in E.
      * rewrite <- app_assoc. reflexivity.
Qed.

End StampSegments.

(** X15: timestamps within one call.  On a console without lines and with
    the timestamp flag clear, [append] with [addTimestamp = true] turns the
    text, cut at its line breaks, into lines that each start with the
    timestamp of the call: every closed line, also an empty one, and the open
    line as soon as it has a character; only an empty open line is bare. *)
Theorem X15_each_line_of_a_call_is_stamped (now string : QString) (c : Console) :
  m_lines c = [] ->
  m_timestampAdded c = false ->
  string <> [] ->
  m_lines (fst (append now string true c))
  = stampSegments now (splitBreaks (replace [CR; LF] [LF] string)).
Proof.
  intros Hl Hf Hne. destruct string as [|ch s]; [congruence|].
  unfold append. cbn [fst].
  set (data := replace [CR; LF] [LF] (ch :: s)).
  assert (Hd : data <> []) by (apply replace_crlf_nonempty; discriminate).
  unfold lineCount. rewrite Hl. cbn [count length Z.of_nat Z.eqb].
  rewrite (appendChars_stamp now data (appendEmptyLine c) [] []);
    [|unfold appendEmptyLine; cbn; now rewrite Hl | exact Hd].
  rewrite (stampSegments_fresh now data Hd).
  replace (m_timestampAdded (appendEmptyLine c)) with false
    by (symmetry; destruct c; exact Hf).
  reflexivity.
Qed.

(** "a", two line breaks, "b", a line break: three stamped lines, the
    second one empty, and a bare open line. *)
Lemma X15_each_line_of_a_call_is_stamped_witness :
  m_lines (fst (append T_ (qstr "a" ++ [CR; LF; LF] ++ qstr "b" ++ [CR]) true Console_new))
  = [qstr "T -> a"; qstr "T -> "; qstr "T -> b"; []].
Proof.
  rewrite (X15_each_line_of_a_call_is_stamped T_
             (qstr "a" ++ [CR; LF; LF] ++ qstr "b" ++ [CR]) Console_new);
    [reflexivity | reflexivity | reflexivity | discriminate].
Defined.

(** ** The hex text is ASCII *)

Section HexTextAscii.

Lemma utf8Decode_ascii (s : QByteArray) :
  Forall (fun x => 0 <= x <= 127) s -> utf8Decode s = s.
Proof.
  induction 1 as [|x s Hx Hs IH]; [reflexivity|].
  cbn [utf8Decode]. unfold between.
  replace (0 <=? x) with true by (symmetry; apply Z.leb_le; lia).
  replace (x <=? 127) with true by (symmetry; apply Z.leb_le; lia).
  cbn [andb]. now rewrite IH.
Qed.

Lemma toHex_digits (data : QByteArray) :
  is_bytes data -> Forall (fun x => 48 <= x <= 102) (toHex data).
Proof.
  induction 1 as [|x data Hx Hdata IH]; [constructor|].
  cbn [toHex flat_map app]. fold (toHex data).
  destruct (byte_nibbles x Hx) as (Hh & Hl & _).
  destruct (hexDigit_cases _ Hh) as (H1 & _).
  destruct (hexDigit_cases _ Hl) as (H2 & _).
  constructor; [lia|]. constructor; [lia | exact IH].
Qed.

(** [QString::fromUtf8(data.toHex())] is the hex text itself: it has no NUL
    byte, no byte order mark and only ASCII characters. *)
Lemma fromUtf8_toHex (data : QByteArray) :
  is_bytes data -> fromUtf8 (toHex data) = toHex data.
Proof.
  intros Hb. pose proof (toHex_digits data Hb) as Hd.
  rewrite fromUtf8_plain.
  - apply utf8Decode_ascii. eapply Forall_impl; [|exact Hd].
    cbn. intros x Hx. lia.
  - intros Hin. rewrite Forall_forall in Hd. specialize (Hd 0 Hin). lia.
  - destruct (toHex data) as [|b0 [|b1 [|b2 r]]]; try reflexivity.
    inversion_clear Hd as [|? ? H0 _]. cbn [hasBom].
    replace (b0 =? 239) with false by (symmetry; apply Z.eqb_neq; lia).
    reflexivity.
Qed.

End HexTextAscii.
